(** * reddit-meme-scraper: classification, ticker extraction and aggregation

    A shallow embedding of [src/utils.ts] (the helper functions
    [extractTickers], [determinePostType], [getMediaUrl], [isMemePost]) and
    of [src/scraper.ts] (class [RedditMemeScraper]), followed by the
    properties of the specification that concern them.

    Strings are sequences of bytes (UTF-8).  Every pattern the code matches
    is ASCII and the regular expressions are used without the [u] and [i]
    flags, so that bytes above 127 behave as the corresponding UTF-16 code
    units do: they are neither letters nor word characters, and the
    lower-casing leaves them alone.  [String.prototype.toLowerCase] turns
    two characters outside ASCII into ASCII letters: U+212A into k, which
    occurs in no pattern of the code, and U+0130 into i followed by U+0307,
    which completes no pattern since in each of them another ASCII character
    follows every i; matching gives the same answers on both
    representations. *)

From Stdlib Require Import List String Ascii ZArith NArith Bool Lia.
From Stdlib Require Import Permutation Sorted QArith_base.
Import ListNotations.
Local Open Scope nat_scope.
Local Open Scope string_scope.
Local Open Scope list_scope.

(* ================================================================= *)
(** ** The JavaScript primitives the program relies on *)

Module Js.

(** Outcome of evaluating a piece of code that may throw. *)
Inductive Error : Type :=
| TypeError (message : string)
| Rejected (reason : string).

Inductive Outcome (A : Type) : Type :=
| Returned (value : A)
| Thrown (error : Error).
Arguments Returned {A} value.
Arguments Thrown {A} error.

Definition bind {A B : Type} (m : Outcome A) (k : A -> Outcome B) : Outcome B :=
  match m with
  | Returned a => k a
  | Thrown e => Thrown e
  end.

(** Character classes of the regular expressions. *)
Definition inRange (lo hi : N) (c : ascii) : bool :=
  let n := N_of_ascii c in (N.leb lo n && N.leb n hi)%bool.

Definition isUpper (c : ascii) : bool := inRange 65 90 c.
Definition isLower (c : ascii) : bool := inRange 97 122 c.
Definition isDigit (c : ascii) : bool := inRange 48 57 c.

(** [\w]: the word characters that decide [\b]. *)
Definition isWordChar (c : ascii) : bool :=
  (isUpper c || isLower c || isDigit c || Ascii.eqb c "_")%bool.

(** [String.prototype.toLowerCase]. *)
Definition lowerChar (c : ascii) : ascii :=
  if isUpper c then ascii_of_N (N_of_ascii c + 32) else c.

Fixpoint toLowerCase (s : string) : string :=
  match s with
  | EmptyString => EmptyString
  | String c rest => String (lowerChar c) (toLowerCase rest)
  end.

(** [String.prototype.includes]. *)
Fixpoint includes (s sub : string) : bool :=
  (String.prefix sub s
   || match s with
      | EmptyString => false
      | String _ rest => includes rest sub
      end)%bool.

(** [s.match(/\.(e1|e2|...)$/)] is non-null: the search tries every start
    position from the left; at a position the pattern needs a dot, one of
    the alternatives, and then the end of the input. *)
Fixpoint matchesExtension (alternatives : list string) (s : string) : bool :=
  match s with
  | EmptyString => false
  | String c rest =>
      (Ascii.eqb c "." && existsb (String.eqb rest) alternatives
       || matchesExtension alternatives rest)%bool
  end.

(** [s.replace(/&amp;/g, '&')]: scan from the left, replace each match and
    resume after it. *)
Fixpoint unescapeAmp (skip : nat) (s : string) : string :=
  match s with
  | EmptyString => EmptyString
  | String c rest =>
      match skip with
      | S k => unescapeAmp k rest
      | O =>
          if String.prefix "&amp;" s
          then String "&" (unescapeAmp 4 rest)
          else String c (unescapeAmp 0 rest)
      end
  end.

(** Truthiness of the optional fields the code tests. *)
Definition truthyFlag (b : option bool) : bool :=
  match b with Some true => true | _ => false end.

Definition truthyString (s : option string) : bool :=
  match s with
  | Some EmptyString | None => false
  | Some _ => true
  end.

(** [new Set()], [Set.prototype.add] and [Array.from(set)]: a set keeps
    its members in insertion order, and adding a member again changes
    nothing. *)
Definition setAdd (members : list string) (x : string) : list string :=
  if existsb (String.eqb x) members then members else members ++ [x].

(** [Array.prototype.includes] on an array of strings. *)
Definition arrayIncludes (l : list string) (x : string) : bool :=
  existsb (String.eqb x) l.

(** [Map.prototype.get] and [Map.prototype.set]: a map keeps its keys in
    the order of their first insertion; setting a present key updates its
    value in place. *)
Fixpoint mapGet (m : list (string * Z)) (k : string) : option Z :=
  match m with
  | [] => None
  | (k', v) :: rest => if String.eqb k k' then Some v else mapGet rest k
  end.

Fixpoint mapSet (m : list (string * Z)) (k : string) (v : Z) : list (string * Z) :=
  match m with
  | [] => [(k, v)]
  | (k', v') :: rest =>
      if String.eqb k k' then (k', v) :: rest else (k', v') :: mapSet rest k v
  end.

(** [Array.prototype.sort(comparefn)].  ECMAScript requires the sort to
    be stable; for a consistent comparator the sorted, stable arrangement
    is unique (lemma [sort_unique] below), so that a stable insertion sort
    computes what every conforming engine returns.  An element goes
    before the first element it does not compare greater than. *)
Section Sort.
Context {A : Type}.
Variable comparefn : A -> A -> Z.

Fixpoint insert (x : A) (sorted : list A) : list A :=
  match sorted with
  | [] => [x]
  | y :: rest =>
      if (comparefn x y <=? 0)%Z then x :: y :: rest
      else y :: insert x rest
  end.

Fixpoint sort (l : list A) : list A :=
  match l with
  | [] => []
  | x :: rest => insert x (sort rest)
  end.
End Sort.

End Js.

(* ================================================================= *)
(** ** The data model ([types.ts] and the fields read from a submission) *)

Inductive PostType : Type := Image | Gif | Video | Gallery | Link.

Definition PostType_eqb (a b : PostType) : bool :=
  match a, b with
  | Image, Image | Gif, Gif | Video, Video | Gallery, Gallery | Link, Link => true
  | _, _ => false
  end.

Record RedditUser : Type := { name : string }.

(** The fields of a submission that the program reads.  A field is optional
    where the code itself provides for its absence ([?.], [||], [&&],
    a strict comparison with a literal); [None] stands for [undefined] and
    [null].  [author] is optional although the code dereferences it without
    a guard: the specification speaks of records without an author.
    [media_fallback_url] is [post.media?.reddit_video?.fallback_url],
    [preview_url] is [post.preview?.images?.[0]?.source?.url], and
    [media_metadata] lists the own keys of the object in the order of
    [Object.keys], each with [item?.s?.u]. *)
Record RawPost : Type := {
  id : string;
  title : string;
  selftext : option string;
  url : option string;
  permalink : string;
  author : option RedditUser;
  created_utc : Z;
  score : Z;
  upvote_ratio : Q;
  num_comments : Z;
  total_awards_received : option Z;
  over_18 : bool;
  is_gallery : option bool;
  is_video : option bool;
  post_hint : option string;
  media_fallback_url : option string;
  preview_url : option string;
  media_metadata : option (list (string * option string))
}.

Record Engagement : Type := {
  upvotes : Z;
  upvoteRatio : Q;
  comments : Z;
  awards : Z
}.

Record MemePost : Type := {
  meme_id : string;
  meme_title : string;
  meme_url : string;
  mediaUrl : option string;
  meme_author : string;
  subreddit : string;
  createdAt : Z;
  engagement : Engagement;
  tickers : list string;
  postType : PostType;
  isNSFW : bool
}.

Inductive Timeframe : Type := Hour | Day | Week | Month.

Record ScraperConfig : Type := {
  subreddits : list string;
  minUpvotes : Z;
  minComments : Z;
  timeframe : Timeframe;
  limit : Z;
  includeNSFW : bool
}.

Record RedditCredentials : Type := {
  clientId : string;
  clientSecret : string;
  userAgent : string;
  username : option string;
  password : option string
}.

(** The options object handed to the API client. *)
Record SnoowrapOptions : Type := {
  optUserAgent : string;
  optClientId : string;
  optClientSecret : string;
  optUsername : option string;
  optPassword : option string
}.

(** [Partial<ScraperConfig>]. *)
Record PartialConfig : Type := {
  opt_subreddits : option (list string);
  opt_minUpvotes : option Z;
  opt_minComments : option Z;
  opt_timeframe : option Timeframe;
  opt_limit : option Z;
  opt_includeNSFW : option bool
}.

(* ================================================================= *)
(** ** [utils.ts] *)

Module Utils.
Import Js.

(** [\b] behind a letter: the text ends, or goes on with a character that
    is not a word character. *)
Definition boundaryAfterLetter (rest : string) : bool :=
  match rest with
  | EmptyString => true
  | String c _ => negb (isWordChar c)
  end.

(** [/\$([A-Z]{1,5})\b/] tried at the start of a text: [tickerRegex] reads the
    dollar sign and [upperRun] the letters.  The quantifier is
    greedy: after a letter the matcher first tries to take one more (while
    fewer than [max] were taken) and, when that fails, backtracks to stop
    here, where [\b] must hold: the character before is a letter, so the
    next one must not be a word character.  The result is the captured
    group. *)
Fixpoint upperRun (max : nat) (s : string) {struct max} : option string :=
  match max, s with
  | S m, String c rest =>
      if isUpper c then
        match upperRun m rest with
        | Some g => Some (String c g)
        | None => if boundaryAfterLetter rest then Some (String c EmptyString) else None
        end
      else None
  | _, _ => None
  end.

Definition tickerRegex (s : string) : option string :=
  match s with
  | String c rest => if Ascii.eqb c "$" then upperRun 5 rest else None
  | EmptyString => None
  end.

(** [text.matchAll(tickerRegex)]: the captured groups of the successive
    matches.  After a match the search resumes behind it ([skip] counts
    the characters of the match still to pass); after a failure it moves
    one character on. *)
Fixpoint matchAll (skip : nat) (s : string) : list string :=
  match s with
  | EmptyString => []
  | String _ rest =>
      match skip with
      | S k => matchAll k rest
      | O =>
          match tickerRegex s with
          | Some g => g :: matchAll (String.length g) rest
          | None => matchAll 0 rest
          end
      end
  end.

Definition extractTickers (text : string) : list string :=
  fold_left setAdd (matchAll 0 text) [].

Definition determinePostType (post : RawPost) : PostType :=
  if truthyFlag (is_gallery post) then Gallery
  else if match post_hint post with Some h => String.eqb h "image" | None => false end
  then Image
  else if match post_hint post with
          | Some h => (String.eqb h "hosted:video" || String.eqb h "rich:video")%bool
          | None => false
          end
  then Video
  else
    (* post.url?.toLowerCase() || '' *)
    let url := match url post with Some u => toLowerCase u | None => "" end in
    if matchesExtension ["gif"; "gifv"] url then Gif
    else if matchesExtension ["jpg"; "jpeg"; "png"; "webp"] url then Image
    else if matchesExtension ["mp4"; "webm"; "mov"] url then Video
    else if (includes url "i.redd.it" || includes url "i.imgur.com")%bool then Image
    else if includes url "v.redd.it" then Video
    else Link.

Definition getMediaUrl (post : RawPost) : option string :=
  if (truthyString (url post)
      && (match post_hint post with Some h => String.eqb h "image" | None => false end
          || truthyFlag (is_video post)))%bool
  then url post
  else if truthyString (media_fallback_url post) then media_fallback_url post
  else if truthyString (preview_url post)
  then option_map (unescapeAmp 0) (preview_url post)
  else
    (* an object is truthy, also an empty one, whose first key is undefined *)
    match (if truthyFlag (is_gallery post) then media_metadata post else None) with
    | Some ((_, firstMedia) :: _) =>
        if truthyString firstMedia
        then option_map (unescapeAmp 0) firstMedia
        else None
    | _ => None
    end.

Definition isMemePost (post : RawPost) : bool :=
  let postType := determinePostType post in
  existsb (PostType_eqb postType) [Image; Gif; Video; Gallery].

End Utils.

(* ================================================================= *)
(** ** [scraper.ts]: class [RedditMemeScraper] *)

Module Scraper.
Import Js Utils.

(** What the scraper writes to the console. *)
Inductive LogLine : Type :=
| LogScraping (subredditName : string)
| LogFound (count : nat) (subredditName : string)
| LogError (subredditName : string) (error : Error).

(** The part of the constructor that builds the options of the API
    client: the login is added only when both of its parts are given. *)
Definition snoowrapOptions (credentials : RedditCredentials) : SnoowrapOptions :=
  let login :=
    (truthyString (username credentials) && truthyString (password credentials))%bool in
  {| optUserAgent := userAgent credentials;
     optClientId := clientId credentials;
     optClientSecret := clientSecret credentials;
     optUsername := if login then username credentials else None;
     optPassword := if login then password credentials else None |}.

(** The part of the constructor that fills in the configuration.  An
    array is truthy, also the empty one, so that [||] replaces only an
    absent list; [||] on the limit also replaces [0]. *)
Definition constructor (config : PartialConfig) : ScraperConfig :=
  {| subreddits :=
       match opt_subreddits config with
       | Some l => l
       | None => ["wallstreetbets"]
       end;
     minUpvotes := match opt_minUpvotes config with Some n => n | None => 100%Z end;
     minComments := match opt_minComments config with Some n => n | None => 0%Z end;
     timeframe := match opt_timeframe config with Some t => t | None => Day end;
     limit :=
       match opt_limit config with
       | Some n => if (n =? 0)%Z then 50%Z else n
       | None => 50%Z
       end;
     includeNSFW := match opt_includeNSFW config with Some b => b | None => true end |}.

Section Instance.
(** [this.reddit.getSubreddit(name).getHot({ limit })], the external
    fetch: it resolves with the posts or rejects. *)
Variable getHot : string -> Z -> Outcome (list RawPost).
(** [this.config]. *)
Variable config : ScraperConfig.

Definition shouldIncludePost (post : RawPost) : bool :=
  if negb (isMemePost post) then false
  else if (over_18 post && negb (includeNSFW config))%bool then false
  else if (score post <? minUpvotes config)%Z then false
  else if (num_comments post <? minComments config)%Z then false
  else true.

Definition convertToMemePost (post : RawPost) (subredditName : string)
  : Outcome MemePost :=
  let fullText :=
    (title post ++ " " ++ match selftext post with Some s => s | None => "" end)%string in
  let tickers := extractTickers fullText in
  match author post with
  | None =>
      (* post.author.name on a missing author *)
      Thrown (TypeError "Cannot read properties of undefined (reading 'name')")
  | Some user =>
      Returned
        {| meme_id := id post;
           meme_title := title post;
           meme_url := ("https://reddit.com" ++ permalink post)%string;
           mediaUrl := getMediaUrl post;
           meme_author := name user;
           subreddit := subredditName;
           createdAt := (created_utc post * 1000)%Z;
           engagement :=
             {| upvotes := score post;
                upvoteRatio := upvote_ratio post;
                comments := num_comments post;
                awards :=
                  match total_awards_received post with
                  | Some n => n
                  | None => 0%Z
                  end |};
           tickers := tickers;
           postType := determinePostType post;
           isNSFW := over_18 post |}
  end.

(** The loop of [fetchFromSubreddit] over the fetched posts; [memes] is
    the array built so far.  An exception leaves the loop and the
    function. *)
Fixpoint convertAll (subredditName : string) (posts : list RawPost)
  (memes : list MemePost) : Outcome (list MemePost) :=
  match posts with
  | [] => Returned memes
  | post :: rest =>
      if shouldIncludePost post then
        bind (convertToMemePost post subredditName)
             (fun meme => convertAll subredditName rest (memes ++ [meme]))
      else convertAll subredditName rest memes
  end.

Definition fetchFromSubreddit (subredditName : string) : Outcome (list MemePost) :=
  bind (getHot subredditName (limit config))
       (fun posts => convertAll subredditName posts []).

(** The loop of [fetchMemes] over the subreddits, on the pair of
    [allMemes] and the console. *)
Fixpoint scrapeAll (names : list string) (allMemes : list MemePost)
  (console : list LogLine) : list MemePost * list LogLine :=
  match names with
  | [] => (allMemes, console)
  | subredditName :: rest =>
      let console := console ++ [LogScraping subredditName] in
      match fetchFromSubreddit subredditName with
      | Returned memes =>
          scrapeAll rest (allMemes ++ memes)
                    (console ++ [LogFound (List.length memes) subredditName])
      | Thrown error =>
          scrapeAll rest allMemes (console ++ [LogError subredditName error])
      end
  end.

Definition byUpvotes (a b : MemePost) : Z :=
  (upvotes (engagement b) - upvotes (engagement a))%Z.

(** The promise of [fetchMemes] with what was logged meanwhile. *)
Definition fetchMemes : Outcome (list MemePost) * list LogLine :=
  let '(allMemes, console) := scrapeAll (subreddits config) [] [] in
  (Returned (sort byUpvotes allMemes), console).

(** The body of [getTrendingTickers] behind the fetch. *)
Definition countTicker (tickerCounts : list (string * Z)) (ticker : string)
  : list (string * Z) :=
  mapSet tickerCounts ticker
         (match mapGet tickerCounts ticker with Some n => n | None => 0 end + 1)%Z.

Definition tickerCounts (allMemes : list MemePost) : list (string * Z) :=
  fold_left (fun counts meme => fold_left countTicker (tickers meme) counts)
            allMemes [].

Definition byCount (a b : string * Z) : Z := (snd b - snd a)%Z.

(** [new Map(entries)]. *)
Definition newMap (entries : list (string * Z)) : list (string * Z) :=
  fold_left (fun m entry => mapSet m (fst entry) (snd entry)) entries [].

Definition sortedTickers (allMemes : list MemePost) : list (string * Z) :=
  newMap (sort byCount (tickerCounts allMemes)).

Definition getTrendingTickers : Outcome (list (string * Z)) * list LogLine :=
  let '(fetched, console) := fetchMemes in
  (bind fetched (fun allMemes => Returned (sortedTickers allMemes)), console).

End Instance.

Section Queries.
(** [String.prototype.toUpperCase].  Outside ASCII it follows the Unicode
    tables and may even change the length of a string, so that it is left
    as the function it is; what is known of it on ASCII strings is a
    premise where a property needs it. *)
Variable toUpperCase : string -> string.
Variable getHot : string -> Z -> Outcome (list RawPost).
Variable config : ScraperConfig.

(** The promise of [getMemesByTicker] with what was logged meanwhile. *)
Definition getMemesByTicker (ticker : string) : Outcome (list MemePost) * list LogLine :=
  let '(fetched, console) := fetchMemes getHot config in
  (bind fetched
        (fun allMemes =>
           Returned
             (filter (fun meme => arrayIncludes (tickers meme) (toUpperCase ticker))
                     allMemes)),
   console).

End Queries.

End Scraper.

(* ================================================================= *)
(** ** What the specification says, in its own terms *)

Module Spec.
Import Js.

(** *** Classification (specification, section 4.2) *)

(** A list of rules is read from the top; the first rule whose condition
    holds decides, and [otherwise] is the answer when none does. *)
Fixpoint firstMatch (rules : list (Prop * PostType)) (otherwise c : PostType) : Prop :=
  match rules with
  | [] => c = otherwise
  | (condition, category) :: rest =>
      (condition /\ c = category) \/ (~ condition /\ firstMatch rest otherwise c)
  end.

Definition equalIgnoringCase (a b : string) : Prop :=
  toLowerCase a = toLowerCase b.

(** The URL of a post; an absent URL counts as the empty text. *)
Definition urlText (p : RawPost) : string :=
  match url p with Some u => u | None => "" end.

(** The URL ends, up to case, with a dot and one of the extensions. *)
Definition urlEndsWith (extensions : list string) (p : RawPost) : Prop :=
  exists front tail e,
    urlText p = (front ++ tail)%string /\ In e extensions /\
    equalIgnoringCase tail ("." ++ e).

(** The URL contains, up to case, one of the markers. *)
Definition urlMentions (markers : list string) (p : RawPost) : Prop :=
  exists front middle back m,
    urlText p = (front ++ middle ++ back)%string /\ In m markers /\
    equalIgnoringCase middle m.

Definition galleryFlag (p : RawPost) : Prop := is_gallery p = Some true.
Definition hintIs (h : string) (p : RawPost) : Prop := post_hint p = Some h.

Definition resolutionOrder (p : RawPost) : list (Prop * PostType) :=
  [ (galleryFlag p, Gallery);
    (hintIs "image" p, Image);
    (hintIs "hosted:video" p \/ hintIs "rich:video" p, Video);
    (urlEndsWith ["gif"; "gifv"] p, Gif);
    (urlEndsWith ["jpg"; "jpeg"; "png"; "webp"] p, Image);
    (urlEndsWith ["mp4"; "webm"; "mov"] p, Video);
    (urlMentions ["i.redd.it"; "i.imgur.com"] p, Image);
    (urlMentions ["v.redd.it"] p, Video) ].

(** A post has visual content when its category is not [Link]. *)
Definition hasVisualContent (c : PostType) : Prop :=
  c = Image \/ c = Gif \/ c = Video \/ c = Gallery.

(** *** Token extraction (specification, section 4.1) *)

Fixpoint allUpper (t : string) : Prop :=
  match t with
  | EmptyString => True
  | String c rest => isUpper c = true /\ allUpper rest
  end.

(** One to five uppercase Latin letters. *)
Definition isToken (t : string) : Prop :=
  1 <= String.length t <= 5 /\ allUpper t.

(** A word boundary follows a letter when the text ends there or goes on
    with a character that is not a word character. *)
Definition boundaryFollows (back : string) : Prop :=
  match back with
  | EmptyString => True
  | String c _ => isWordChar c = false
  end.

(** The token [t] stands at position [i] of the text: a dollar sign at
    [i], then [t], then a word boundary. *)
Definition tokenAt (text : string) (i : nat) (t : string) : Prop :=
  isToken t /\
  exists front back,
    text = (front ++ "$" ++ t ++ back)%string /\
    String.length front = i /\ boundaryFollows back.

(** [x] stands before [y] in the list. *)
Definition before {A : Type} (x y : A) (l : list A) : Prop :=
  exists l1 l2 l3, l = l1 ++ x :: l2 ++ y :: l3.

End Spec.

(* ================================================================= *)
(** ** Auxiliary functions of the proofs *)

Module Aux.
Import Js Utils.

(** The matches of the ticker pattern with their positions, every
    position tried in turn. *)
Fixpoint located (offset : nat) (s : string) : list (nat * string) :=
  match s with
  | EmptyString => []
  | String _ rest =>
      match tickerRegex s with
      | Some g => (offset, g) :: located (S offset) rest
      | None => located (S offset) rest
      end
  end.

(** No dollar sign among the first [k] characters. *)
Fixpoint quiet (k : nat) (s : string) : Prop :=
  match k, s with
  | S k', String c rest => c <> "$"%char /\ quiet k' rest
  | _, _ => True
  end.

(** What a source adds to the result: its memes, or nothing when its
    fetch or the conversion of its posts fails. *)
Definition contribution (getHot : string -> Z -> Outcome (list RawPost))
  (config : ScraperConfig) (subredditName : string) : list MemePost :=
  match Scraper.fetchFromSubreddit getHot config subredditName with
  | Returned memes => memes
  | Thrown _ => []
  end.

(** What the passage over a source writes to the console. *)
Definition report (getHot : string -> Z -> Outcome (list RawPost))
  (config : ScraperConfig) (subredditName : string) : list Scraper.LogLine :=
  Scraper.LogScraping subredditName
  :: match Scraper.fetchFromSubreddit getHot config subredditName with
     | Returned memes => [Scraper.LogFound (List.length memes) subredditName]
     | Thrown error => [Scraper.LogError subredditName error]
     end.

(** The engagement key of the final sort. *)
Definition upvotesOf (meme : MemePost) : Z := upvotes (engagement meme).

(** The list goes from the largest key to the smallest. *)
Definition descending {A : Type} (key : A -> Z) (l : list A) : Prop :=
  StronglySorted (fun a b => (key b <= key a)%Z) l.

Definition keyIs {A : Type} (key : A -> Z) (k : Z) (a : A) : bool :=
  (key a =? k)%Z.

Definition lowerCased (s : string) : Prop := toLowerCase s = s.

(** The count a map holds for a ticker, 0 for none. *)
Definition countOf (m : list (string * Z)) (t : string) : Z :=
  match mapGet m t with Some n => n | None => 0%Z end.

(** The escaping that [unescapeAmp] undoes: every ampersand written as the
    entity. *)
Fixpoint escapeAmp (s : string) : string :=
  match s with
  | EmptyString => EmptyString
  | String c rest =>
      if Ascii.eqb c "&" then ("&amp;" ++ escapeAmp rest)%string
      else String c (escapeAmp rest)
  end.

(** What [toUpperCase] does on ASCII. *)
Definition upperChar (c : ascii) : ascii :=
  if isLower c then ascii_of_N (N_of_ascii c - 32) else c.

Fixpoint upperAscii (s : string) : string :=
  match s with
  | EmptyString => EmptyString
  | String c rest => String (upperChar c) (upperAscii rest)
  end.

Fixpoint asciiOnly (s : string) : Prop :=
  match s with
  | EmptyString => True
  | String c rest => (N_of_ascii c < 128)%N /\ asciiOnly rest
  end.

(** The thresholds of a configuration, read on a converted post. *)
Definition passes (config : ScraperConfig) (meme : MemePost) : bool :=
  (negb (isNSFW meme && negb (includeNSFW config))
   && (minUpvotes config <=? upvotes (engagement meme))%Z
   && (minComments config <=? comments (engagement meme))%Z)%bool.



(** The sum of the counts of a table. *)
Definition totalCount (table : list (string * Z)) : Z :=
  fold_right Z.add 0%Z (map snd table).

(** The body text of a post, empty when absent. *)
Definition bodyText (post : RawPost) : string :=
  match selftext post with Some s => s | None => "" end.

(** The optional text is there and not empty: what the code tests by
    truthiness. *)
Definition present (s : option string) : Prop :=
  exists u, s = Some u /\ u <> "".

(** The post carries a direct media URL: a URL with the hint "image" or the
    video flag. *)
Definition directMedia (p : RawPost) : Prop :=
  present (url p) /\ (post_hint p = Some "image" \/ is_video p = Some true).

(** The first item of the gallery metadata has a source URL. *)
Definition galleryMedia (p : RawPost) : Prop :=
  is_gallery p = Some true /\
  exists key first rest,
    media_metadata p = Some ((key, first) :: rest) /\ present first.

(** The conversions of the posts that have an author. *)
Definition conversions (subredditName : string) (posts : list RawPost) : list MemePost :=
  flat_map (fun post =>
              match Scraper.convertToMemePost post subredditName with
              | Returned meme => [meme]
              | Thrown _ => []
              end) posts.

(** The second configuration asks for the same sources and limit as the
    first and is at least as demanding in every threshold. *)
Definition stricter (first second : ScraperConfig) : Prop :=
  subreddits second = subreddits first /\
  limit second = limit first /\
  (minUpvotes first <= minUpvotes second)%Z /\
  (minComments first <= minComments second)%Z /\
  (includeNSFW second = true -> includeNSFW first = true).

(** A text that mentions the given tickers one after the other. *)
Fixpoint mentionAll (ts : list string) : string :=
  match ts with
  | [] => EmptyString
  | t :: rest => (String "$" t ++ String " " (mentionAll rest))%string
  end.

(** The token is none of the members. *)
Definition notAmong (members : list string) (t : string) : bool :=
  negb (existsb (String.eqb t) members).

(** The token set of a post contains the token. *)
Definition mentionsTicker (t : string) (meme : MemePost) : bool :=
  existsb (String.eqb t) (tickers meme).

End Aux.

(* ================================================================= *)
(** ** Sample posts *)

Module Examples.

(** A link post with nothing but the mandatory fields. *)
Definition plainPost : RawPost :=
  {| id := "p0"; title := "Stonks"; selftext := None; url := None;
     permalink := "/r/wallstreetbets/comments/p0/stonks/";
     author := Some {| name := "trader" |};
     created_utc := 1700000000; score := 250; upvote_ratio := 9 # 10;
     num_comments := 12; total_awards_received := None; over_18 := false;
     is_gallery := None; is_video := None; post_hint := None;
     media_fallback_url := None; preview_url := None; media_metadata := None |}.

Definition withUrl (u : string) (p : RawPost) : RawPost :=
  {| id := id p; title := title p; selftext := selftext p; url := Some u;
     permalink := permalink p; author := author p; created_utc := created_utc p;
     score := score p; upvote_ratio := upvote_ratio p; num_comments := num_comments p;
     total_awards_received := total_awards_received p; over_18 := over_18 p;
     is_gallery := is_gallery p; is_video := is_video p; post_hint := post_hint p;
     media_fallback_url := media_fallback_url p; preview_url := preview_url p;
     media_metadata := media_metadata p |}.

Definition withHint (h : string) (p : RawPost) : RawPost :=
  {| id := id p; title := title p; selftext := selftext p; url := url p;
     permalink := permalink p; author := author p; created_utc := created_utc p;
     score := score p; upvote_ratio := upvote_ratio p; num_comments := num_comments p;
     total_awards_received := total_awards_received p; over_18 := over_18 p;
     is_gallery := is_gallery p; is_video := is_video p; post_hint := Some h;
     media_fallback_url := media_fallback_url p; preview_url := preview_url p;
     media_metadata := media_metadata p |}.

Definition asGallery (p : RawPost) : RawPost :=
  {| id := id p; title := title p; selftext := selftext p; url := url p;
     permalink := permalink p; author := author p; created_utc := created_utc p;
     score := score p; upvote_ratio := upvote_ratio p; num_comments := num_comments p;
     total_awards_received := total_awards_received p; over_18 := over_18 p;
     is_gallery := Some true; is_video := is_video p; post_hint := post_hint p;
     media_fallback_url := media_fallback_url p; preview_url := preview_url p;
     media_metadata := media_metadata p |}.

Definition galleryWithJpg : RawPost :=
  asGallery (withUrl "https://example.com/Chart.JPG" plainPost).

Definition imageHintWithMp4 : RawPost :=
  withHint "image" (withUrl "https://example.com/clip.mp4" plainPost).

Definition withScore (n : Z) (p : RawPost) : RawPost :=
  {| id := id p; title := title p; selftext := selftext p; url := url p;
     permalink := permalink p; author := author p; created_utc := created_utc p;
     score := n; upvote_ratio := upvote_ratio p; num_comments := num_comments p;
     total_awards_received := total_awards_received p; over_18 := over_18 p;
     is_gallery := is_gallery p; is_video := is_video p; post_hint := post_hint p;
     media_fallback_url := media_fallback_url p; preview_url := preview_url p;
     media_metadata := media_metadata p |}.

Definition asAdult (p : RawPost) : RawPost :=
  {| id := id p; title := title p; selftext := selftext p; url := url p;
     permalink := permalink p; author := author p; created_utc := created_utc p;
     score := score p; upvote_ratio := upvote_ratio p; num_comments := num_comments p;
     total_awards_received := total_awards_received p; over_18 := true;
     is_gallery := is_gallery p; is_video := is_video p; post_hint := post_hint p;
     media_fallback_url := media_fallback_url p; preview_url := preview_url p;
     media_metadata := media_metadata p |}.

Definition withoutAuthor (p : RawPost) : RawPost :=
  {| id := id p; title := title p; selftext := selftext p; url := url p;
     permalink := permalink p; author := None; created_utc := created_utc p;
     score := score p; upvote_ratio := upvote_ratio p; num_comments := num_comments p;
     total_awards_received := total_awards_received p; over_18 := over_18 p;
     is_gallery := is_gallery p; is_video := is_video p; post_hint := post_hint p;
     media_fallback_url := media_fallback_url p; preview_url := preview_url p;
     media_metadata := media_metadata p |}.

Definition withTitle (t : string) (p : RawPost) : RawPost :=
  {| id := id p; title := t; selftext := selftext p; url := url p;
     permalink := permalink p; author := author p; created_utc := created_utc p;
     score := score p; upvote_ratio := upvote_ratio p; num_comments := num_comments p;
     total_awards_received := total_awards_received p; over_18 := over_18 p;
     is_gallery := is_gallery p; is_video := is_video p; post_hint := post_hint p;
     media_fallback_url := media_fallback_url p; preview_url := preview_url p;
     media_metadata := media_metadata p |}.

(** An image post that passes the default thresholds. *)
Definition imagePost : RawPost :=
  withUrl "https://i.redd.it/abc.png" plainPost.

(** The configuration of the README: no adult content. *)
Definition familyConfig : ScraperConfig :=
  Scraper.constructor
    {| opt_subreddits := Some ["wallstreetbets"; "stocks"];
       opt_minUpvotes := Some 100%Z; opt_minComments := Some 0%Z;
       opt_timeframe := Some Day; opt_limit := Some 50%Z;
       opt_includeNSFW := Some false |}.

(** The failing source first, the defaults otherwise. *)
Definition stocksFirst : ScraperConfig :=
  Scraper.constructor
    {| opt_subreddits := Some ["stocks"; "wallstreetbets"];
       opt_minUpvotes := None; opt_minComments := None;
       opt_timeframe := None; opt_limit := None; opt_includeNSFW := None |}.

(** The same with a higher minimum of upvotes. *)
Definition stocksFirstStrict : ScraperConfig :=
  Scraper.constructor
    {| opt_subreddits := Some ["stocks"; "wallstreetbets"];
       opt_minUpvotes := Some 500%Z; opt_minComments := None;
       opt_timeframe := None; opt_limit := None; opt_includeNSFW := None |}.

(** Credentials with a user name but an empty password. *)
Definition halfLogin : RedditCredentials :=
  {| clientId := "abc123"; clientSecret := "secret"; userAgent := "scraper:v1";
     username := Some "trader"; password := Some "" |}.

(** A configuration with an empty list of sources. *)
Definition noSources : PartialConfig :=
  {| opt_subreddits := Some []; opt_minUpvotes := None; opt_minComments := None;
     opt_timeframe := None; opt_limit := None; opt_includeNSFW := None |}.

(** A configuration that leaves everything to the defaults. *)
Definition nothingGiven : PartialConfig :=
  {| opt_subreddits := None; opt_minUpvotes := None; opt_minComments := None;
     opt_timeframe := None; opt_limit := None; opt_includeNSFW := None |}.

(** Three posts that pass the filter, the second and third with equal
    scores. *)
Definition threePosts : list RawPost :=
  [ withTitle "$SPY puts" (withScore 300 imagePost);
    withTitle "$SPY and $TSLA calls, $SPY again" (withScore 900 imagePost);
    withTitle "Theta gang" (withScore 900 imagePost) ].

(** A fetch service whose first source fails. *)
Definition stocksDown (subredditName : string) (limit : Z)
  : Js.Outcome (list RawPost) :=
  if String.eqb subredditName "stocks"
  then Js.Thrown (Js.Rejected "503 Service Unavailable")
  else Js.Returned threePosts.

(** A fetch service that delivers a record without author among good
    ones. *)
Definition oneWithoutAuthor (subredditName : string) (limit : Z)
  : Js.Outcome (list RawPost) :=
  Js.Returned [withScore 300 imagePost; withoutAuthor imagePost;
               withScore 900 imagePost].

(** The same delivery without the record that has no author. *)
Definition allWithAuthor (subredditName : string) (limit : Z)
  : Js.Outcome (list RawPost) :=
  Js.Returned [withScore 300 imagePost; withScore 900 imagePost].

Definition withBody (body : string) (p : RawPost) : RawPost :=
  {| id := id p; title := title p; selftext := Some body; url := url p;
     permalink := permalink p; author := author p; created_utc := created_utc p;
     score := score p; upvote_ratio := upvote_ratio p; num_comments := num_comments p;
     total_awards_received := total_awards_received p; over_18 := over_18 p;
     is_gallery := is_gallery p; is_video := is_video p; post_hint := post_hint p;
     media_fallback_url := media_fallback_url p; preview_url := preview_url p;
     media_metadata := media_metadata p |}.

Definition withPreview (u : string) (p : RawPost) : RawPost :=
  {| id := id p; title := title p; selftext := selftext p; url := url p;
     permalink := permalink p; author := author p; created_utc := created_utc p;
     score := score p; upvote_ratio := upvote_ratio p; num_comments := num_comments p;
     total_awards_received := total_awards_received p; over_18 := over_18 p;
     is_gallery := is_gallery p; is_video := is_video p; post_hint := post_hint p;
     media_fallback_url := media_fallback_url p; preview_url := Some u;
     media_metadata := media_metadata p |}.

(** A link post with a preview image whose URL came escaped. *)
Definition previewPost : RawPost :=
  withPreview "https://preview.redd.it/x.jpg?width=640&amp;format=pjpg&amp;s=1f"
              (withUrl "https://example.com/article" plainPost).

(** A post whose title and body both carry tickers. *)
Definition titleAndBody : RawPost :=
  withBody "Sold $TSLA, kept $SPY and $QQQ" (withTitle "$SPY puts on $NVDA" imagePost).

(** A fetch service that never answers well. *)
Definition alwaysDown (subredditName : string) (limit : Z)
  : Js.Outcome (list RawPost) :=
  Js.Thrown (Js.Rejected "401 Unauthorized").

Definition memeWith (name : string) (tokens : list string) : MemePost :=
  {| meme_id := name; meme_title := name; meme_url := "https://reddit.com/";
     mediaUrl := None; meme_author := "trader"; subreddit := "wallstreetbets";
     createdAt := 0;
     engagement := {| upvotes := 100; upvoteRatio := 1 # 1; comments := 0; awards := 0 |};
     tickers := tokens; postType := Image; isNSFW := false |}.

End Examples.

(* ================================================================= *)
(** ** Facts about the primitives *)

Section StringFacts.
Import Js.

Lemma append_empty_r (s : string) : (s ++ "")%string = s.
Proof. induction s as [|c s IH]; simpl; [reflexivity | now rewrite IH]. Qed.

Lemma append_assoc (a b c : string) :
  ((a ++ b) ++ c)%string = (a ++ (b ++ c))%string.
Proof. induction a as [|x a IH]; simpl; [reflexivity | now rewrite IH]. Qed.

Lemma prefix_iff (a s : string) :
  String.prefix a s = true <-> exists back, s = (a ++ back)%string.
Proof.
  revert s; induction a as [|x a IH]; intros s.
  - split; [intros _; now exists s | destruct s; reflexivity].
  - destruct s as [|y s]; simpl.
    + split; [discriminate | intros [back H]; discriminate].
    + destruct (ascii_dec x y) as [->|ne].
      * rewrite IH. split; intros [back H]; exists back.
        -- now rewrite H.
        -- now inversion H.
      * split; [discriminate | intros [back H]; inversion H; congruence].
Qed.

Lemma includes_iff (s sub : string) :
  includes s sub = true <->
  exists front back, s = (front ++ sub ++ back)%string.
Proof.
  induction s as [|c s IH].
  - cbn [includes]. rewrite orb_false_r, prefix_iff. split.
    + intros [back H]. now exists "", back.
    + intros [front [back H]]. destruct front; [now exists back | discriminate].
  - cbn [includes]. rewrite orb_true_iff, IH, prefix_iff. split.
    + intros [[back H] | [front [back H]]].
      * now exists "", back.
      * exists (String c front), back. simpl. now rewrite H.
    + intros [front [back H]]. destruct front as [|x front].
      * left. now exists back.
      * right. exists front, back. now inversion H.
Qed.

Lemma matchesExtension_iff (alternatives : list string) (s : string) :
  matchesExtension alternatives s = true <->
  exists front e, In e alternatives /\ s = (front ++ "." ++ e)%string.
Proof.
  induction s as [|c s IH].
  - simpl. split; [discriminate |].
    intros [front [e [_ H]]]. destruct front; discriminate.
  - cbn [matchesExtension].
    rewrite orb_true_iff, andb_true_iff, IH, existsb_exists. split.
    + intros [[Hc [e [He Heq]]] | [front [e [He H]]]].
      * apply Ascii.eqb_eq in Hc. apply String.eqb_eq in Heq. subst.
        now exists "", e.
      * exists (String c front), e. split; [assumption | simpl; now rewrite H].
    + intros [front [e [He H]]]. destruct front as [|x front].
      * left. simpl in H. inversion H; subst. split.
        -- apply Ascii.eqb_refl.
        -- exists e. split; [assumption | apply String.eqb_refl].
      * right. exists front, e. split; [assumption | now inversion H].
Qed.

Lemma toLowerCase_append (a b : string) :
  toLowerCase (a ++ b) = (toLowerCase a ++ toLowerCase b)%string.
Proof. induction a as [|x a IH]; simpl; [reflexivity | now rewrite IH]. Qed.

Lemma toLowerCase_split (s x y : string) :
  toLowerCase s = (x ++ y)%string ->
  exists a b, s = (a ++ b)%string /\ toLowerCase a = x /\ toLowerCase b = y.
Proof.
  revert s; induction x as [|c x IH]; intros s H.
  - now exists "", s.
  - destruct s as [|d s]; [discriminate |].
    simpl in H. inversion H as [[Hc Hs]].
    destruct (IH _ Hs) as [a [b [-> [Ha Hb]]]].
    exists (String d a), b. simpl. now rewrite Ha.
Qed.

End StringFacts.

(* ================================================================= *)
(** ** The classifier *)

Section Classifier.
Import Js Utils Spec Aux.

Lemma loweredUrl (p : RawPost) :
  match url p with Some u => toLowerCase u | None => "" end
  = toLowerCase (urlText p).
Proof. unfold urlText. now destruct (url p). Qed.

Lemma urlEndsWith_iff (extensions : list string) (p : RawPost) :
  Forall lowerCased extensions ->
  (matchesExtension extensions (toLowerCase (urlText p)) = true
   <-> urlEndsWith extensions p).
Proof.
  intros Hlow. rewrite matchesExtension_iff. unfold urlEndsWith, equalIgnoringCase.
  assert (Hdot : forall e, In e extensions -> toLowerCase ("." ++ e) = ("." ++ e)%string).
  { intros e He. rewrite Forall_forall in Hlow. simpl. now rewrite (Hlow e He). }
  split.
  - intros [front [e [He H]]].
    destruct (toLowerCase_split _ _ _ H) as [a [b [Hs [_ Hb]]]].
    exists a, b, e. now rewrite (Hdot e He).
  - intros [front [tail [e [Hs [He Ht]]]]].
    exists (toLowerCase front), e. split; [assumption |].
    now rewrite Hs, toLowerCase_append, Ht, (Hdot e He).
Qed.

Lemma urlMentions_iff (markers : list string) (p : RawPost) :
  Forall lowerCased markers ->
  (existsb (includes (toLowerCase (urlText p))) markers = true
   <-> urlMentions markers p).
Proof.
  intros Hlow. rewrite Forall_forall in Hlow.
  rewrite existsb_exists. unfold urlMentions, equalIgnoringCase. split.
  - intros [m [Hm H]]. apply includes_iff in H. destruct H as [front [back H]].
    destruct (toLowerCase_split _ _ _ H) as [a [rest [Hs [_ Hrest]]]].
    destruct (toLowerCase_split _ _ _ Hrest) as [b [c [Hbc [Hb _]]]].
    exists a, b, c, m. subst rest. now rewrite (Hlow m Hm).
  - intros [front [middle [back [m [Hs [Hm Hmid]]]]]].
    exists m. split; [assumption |]. apply includes_iff.
    exists (toLowerCase front), (toLowerCase back).
    now rewrite Hs, !toLowerCase_append, Hmid, (Hlow m Hm).
Qed.

Lemma truthyFlag_iff (b : option bool) : truthyFlag b = true <-> b = Some true.
Proof. destruct b as [[|]|]; simpl; split; congruence. Qed.

Lemma hint_iff (hint : option string) (h : string) :
  match hint with Some x => String.eqb x h | None => false end = true
  <-> hint = Some h.
Proof.
  destruct hint as [x|]; [| split; discriminate].
  rewrite String.eqb_eq. split; congruence.
Qed.

Lemma firstMatch_here (condition : Prop) category rest otherwise c :
  condition ->
  (firstMatch ((condition, category) :: rest) otherwise c <-> category = c).
Proof. simpl. intuition congruence. Qed.

Lemma firstMatch_next (condition : Prop) category rest otherwise c :
  ~ condition ->
  (firstMatch ((condition, category) :: rest) otherwise c
   <-> firstMatch rest otherwise c).
Proof. simpl. intuition congruence. Qed.

Ltac lowercase_list := repeat constructor.

(** One step of the cascade: the test of the code decides the condition
    of the rule on top. *)
Ltac cascade_step H :=
  match goal with
  | |- context [if ?b then _ else _] =>
      destruct b;
      [ rewrite firstMatch_here; [reflexivity | now apply H]
      | rewrite firstMatch_next by (rewrite <- H; discriminate) ]
  end.

(** On a given post a rule that does not apply is refuted by running the
    test of the code. *)
Ltac refute_rule :=
  let H := fresh "H" in
  intros H;
  first
    [ apply urlEndsWith_iff in H; [vm_compute in H; discriminate H | lowercase_list]
    | apply urlMentions_iff in H; [vm_compute in H; discriminate H | lowercase_list]
    | destruct H as [H | H]; discriminate H
    | discriminate H ].

(** The code follows the resolution order of the specification. *)
Lemma determinePostType_order (p : RawPost) (c : PostType) :
  determinePostType p = c <-> firstMatch (resolutionOrder p) Link c.
Proof.
  unfold determinePostType, resolutionOrder, galleryFlag, hintIs.
  rewrite loweredUrl.
  pose proof (truthyFlag_iff (is_gallery p)) as H1.
  pose proof (hint_iff (post_hint p) "image") as H2.
  assert (H3 : match post_hint p with
               | Some h => (String.eqb h "hosted:video" || String.eqb h "rich:video")%bool
               | None => false
               end = true
               <-> post_hint p = Some "hosted:video" \/ post_hint p = Some "rich:video").
  { destruct (post_hint p) as [h|].
    - rewrite orb_true_iff, !String.eqb_eq. intuition congruence.
    - intuition discriminate. }
  pose proof (urlEndsWith_iff ["gif"; "gifv"] p ltac:(lowercase_list)) as H4.
  pose proof (urlEndsWith_iff ["jpg"; "jpeg"; "png"; "webp"] p ltac:(lowercase_list)) as H5.
  pose proof (urlEndsWith_iff ["mp4"; "webm"; "mov"] p ltac:(lowercase_list)) as H6.
  pose proof (urlMentions_iff ["i.redd.it"; "i.imgur.com"] p ltac:(lowercase_list)) as H7.
  pose proof (urlMentions_iff ["v.redd.it"] p ltac:(lowercase_list)) as H8.
  cbn [existsb] in H7, H8. rewrite orb_false_r in H7, H8.
  cascade_step H1. cascade_step H2. cascade_step H3. cascade_step H4.
  cascade_step H5. cascade_step H6. cascade_step H7. cascade_step H8.
  simpl. split; congruence.
Qed.

Lemma firstMatch_none rules otherwise c :
  (forall condition category, In (condition, category) rules -> ~ condition) ->
  firstMatch rules otherwise c -> c = otherwise.
Proof.
  induction rules as [|[condition category] rules IH]; intros Hnone H.
  - exact H.
  - destruct H as [[H _] | [_ H]].
    + exfalso. exact (Hnone _ _ (or_introl eq_refl) H).
    + apply IH; [| exact H]. intros c' k Hin. apply (Hnone c' k). now right.
Qed.

(** C1. For every raw post the classifier resolves the category by the
    nine steps of the specification in their order, the first step that
    applies deciding: gallery flag; hint "image"; hint "hosted:video" or
    "rich:video"; URL ending (up to case) in .gif/.gifv; in
    .jpg/.jpeg/.png/.webp; in .mp4/.webm/.mov; URL containing i.redd.it or
    i.imgur.com; containing v.redd.it; otherwise link.  In particular a
    post with a gallery flag and a .jpg URL is a gallery, and a post
    (without gallery flag) with hint "image" and a .mp4 URL is an image. *)
Theorem determinePostType_first_match :
  (forall p c, determinePostType p = c <-> firstMatch (resolutionOrder p) Link c) /\
  (forall p, galleryFlag p -> urlEndsWith ["jpg"] p ->
             determinePostType p = Gallery) /\
  (forall p, ~ galleryFlag p -> hintIs "image" p -> urlEndsWith ["mp4"] p ->
             determinePostType p = Image).
Proof.
  split; [exact determinePostType_order |]. split.
  - intros p Hg _. apply determinePostType_order. left. now split.
  - intros p Hg Hh _. apply determinePostType_order.
    right. split; [assumption |]. left. now split.
Qed.

Lemma determinePostType_first_match_witness :
  determinePostType Examples.galleryWithJpg = Gallery /\
  determinePostType Examples.imageHintWithMp4 = Image.
Proof.
  destruct determinePostType_first_match as [_ [Hgallery Himage]]. split.
  - apply Hgallery.
    + reflexivity.
    + exists "https://example.com/Chart", ".JPG", "jpg".
      repeat split. now left.
  - apply Himage.
    + discriminate.
    + reflexivity.
    + exists "https://example.com/clip", ".mp4", "mp4".
      repeat split. now left.
Defined.

(** C9. The classifier is total: every raw post gets exactly one of the
    five categories; when none of the eight earlier rules applies the
    category is link, as it is for a post without URL, hint and gallery
    flag. *)
Theorem determinePostType_total :
  (forall p, exists! c, determinePostType p = c /\
                        In c [Image; Gif; Video; Gallery; Link]) /\
  (forall p,
      (forall condition category,
          In (condition, category) (resolutionOrder p) -> ~ condition) ->
      determinePostType p = Link) /\
  (forall p, url p = None -> post_hint p = None -> is_gallery p <> Some true ->
             determinePostType p = Link).
Proof.
  split; [| split].
  - intros p. exists (determinePostType p). split.
    + split; [reflexivity |]. destruct (determinePostType p); simpl; tauto.
    + now intros c [H _].
  - intros p Hnone. apply (firstMatch_none (resolutionOrder p)); [assumption |].
    now apply determinePostType_order.
  - intros p Hurl Hhint Hflag. unfold determinePostType.
    rewrite Hurl, Hhint.
    destruct (truthyFlag (is_gallery p)) eqn:E; [| reflexivity].
    apply truthyFlag_iff in E. contradiction.
Qed.

Lemma determinePostType_total_witness :
  determinePostType Examples.plainPost = Link /\
  determinePostType (Examples.withUrl "not a url" Examples.plainPost) = Link.
Proof.
  destruct determinePostType_total as [_ [Hnone Habsent]]. split.
  - apply Habsent; [reflexivity | reflexivity | discriminate].
  - apply Hnone. intros condition category Hin. simpl in Hin.
    repeat (destruct Hin as [Hin | Hin]; [injection Hin as <- _; refute_rule |]).
    contradiction.
Defined.

End Classifier.

(* ================================================================= *)
(** ** The token extractor *)

Section Extractor.
Import Js Utils Spec Aux.

Lemma upper_is_word (c : ascii) : isUpper c = true -> isWordChar c = true.
Proof. unfold isWordChar. now intros ->. Qed.

Lemma upper_not_dollar (c : ascii) : isUpper c = true -> c <> "$"%char.
Proof. intros H ->. discriminate H. Qed.

Lemma boundary_iff (rest : string) :
  boundaryAfterLetter rest = true <-> boundaryFollows rest.
Proof.
  destruct rest as [|c rest]; simpl; [tauto |].
  destruct (isWordChar c); simpl; split; congruence.
Qed.

(** A run of letters cannot be followed by a boundary when it goes on
    with a letter. *)
Lemma boundary_no_letter (c : ascii) (rest : string) :
  isUpper c = true -> ~ boundaryFollows (String c rest).
Proof. intros H Hb. simpl in Hb. apply upper_is_word in H. congruence. Qed.

Lemma upperRun_sound (max : nat) (s g : string) :
  upperRun max s = Some g ->
  1 <= String.length g <= max /\ allUpper g /\
  exists back, s = (g ++ back)%string /\ boundaryFollows back.
Proof.
  revert s g; induction max as [|m IH]; intros s g H; [discriminate |].
  destruct s as [|c rest]; [discriminate |].
  cbn [upperRun] in H. destruct (isUpper c) eqn:Hc; [| discriminate].
  destruct (upperRun m rest) as [g'|] eqn:Hrun.
  - injection H as <-. destruct (IH _ _ Hrun) as [Hlen [Hup [back [-> Hb]]]].
    simpl. repeat split; try lia; try assumption. now exists back.
  - destruct (boundaryAfterLetter rest) eqn:Hb; [| discriminate].
    injection H as <-. simpl. repeat split; try lia; try assumption.
    exists rest. split; [reflexivity | now apply boundary_iff].
Qed.

Lemma upperRun_complete (max : nat) (g back : string) :
  1 <= String.length g <= max -> allUpper g -> boundaryFollows back ->
  upperRun max (g ++ back) = Some g.
Proof.
  revert g; induction max as [|m IH]; intros g Hlen Hup Hb; [lia |].
  destruct g as [|c g]; [simpl in Hlen; lia |].
  destruct Hup as [Hc Hup]. cbn [upperRun append]. rewrite Hc.
  destruct g as [|d g].
  - simpl. destruct (upperRun m back) as [g'|] eqn:Hrun.
    + exfalso. destruct (upperRun_sound _ _ _ Hrun) as [Hl [Hu [back' [-> _]]]].
      destruct g' as [|d g']; [simpl in Hl; lia |].
      destruct Hu as [Hd _]. exact (boundary_no_letter _ _ Hd Hb).
    + apply boundary_iff in Hb. now rewrite Hb.
  - rewrite IH; [reflexivity | simpl in *; lia | assumption | assumption].
Qed.

(** The pattern matches at the start of a text exactly when a token
    stands there, and captures that token. *)
Lemma tickerRegex_iff (s g : string) :
  tickerRegex s = Some g <-> tokenAt s 0 g.
Proof.
  unfold tickerRegex, tokenAt, isToken. split.
  - destruct s as [|c rest]; [discriminate |].
    destruct (Ascii.eqb c "$") eqn:Hc; [| discriminate].
    apply Ascii.eqb_eq in Hc. subst c. intros H.
    destruct (upperRun_sound _ _ _ H) as [Hlen [Hup [back [-> Hb]]]].
    split; [now split |]. exists "", back. now repeat split.
  - intros [[Hlen Hup] [front [back [-> [Hfront Hb]]]]].
    destruct front; [| discriminate].
    change (upperRun 5 (g ++ back) = Some g).
    now apply upperRun_complete.
Qed.

Lemma tokenAt_unique (s : string) (i : nat) (t t' : string) :
  tokenAt s i t -> tokenAt s i t' -> t = t'.
Proof.
  revert i; induction s as [|c s IH]; intros i H H'.
  - destruct H as [_ [front [back [H _]]]]. destruct front; discriminate.
  - destruct i as [|i].
    + apply tickerRegex_iff in H, H'. congruence.
    + apply (IH i).
      * destruct H as [Ht [front [back [Hs [Hl Hb]]]]].
        destruct front as [|x front]; [discriminate |].
        split; [assumption |]. exists front, back.
        inversion Hs. simpl in Hl. repeat split; [lia | assumption].
      * destruct H' as [Ht [front [back [Hs [Hl Hb]]]]].
        destruct front as [|x front]; [discriminate |].
        split; [assumption |]. exists front, back.
        inversion Hs. simpl in Hl. repeat split; [lia | assumption].
Qed.

Lemma tokenAt_next (c : ascii) (s : string) (i : nat) (t : string) :
  tokenAt (String c s) (S i) t <-> tokenAt s i t.
Proof.
  unfold tokenAt. split; intros [Ht [front [back [Hs [Hl Hb]]]]]; (split; [assumption |]).
  - destruct front as [|x front]; [discriminate |].
    exists front, back. inversion Hs. simpl in Hl. repeat split; [lia | assumption].
  - exists (String c front), back. simpl. rewrite Hs. now repeat split; [lia |].
Qed.

Lemma located_iff (s : string) (offset i : nat) (t : string) :
  In (i, t) (located offset s) <-> exists j, i = offset + j /\ tokenAt s j t.
Proof.
  revert offset; induction s as [|c s IH]; intros offset.
  - simpl. split; [contradiction |].
    intros [j [_ [_ [front [back [H _]]]]]]. destruct front; discriminate.
  - cbn [located].
    assert (Hrest : In (i, t) (located (S offset) s)
                    <-> exists j, i = offset + S j /\ tokenAt (String c s) (S j) t).
    { rewrite IH. split; intros [j [Hi Hj]]; exists j.
      - split; [lia | exact (proj2 (tokenAt_next c s j t) Hj)].
      - split; [lia | exact (proj1 (tokenAt_next c s j t) Hj)]. }
    destruct (tickerRegex (String c s)) as [g|] eqn:Hm.
    + cbn [In]. rewrite Hrest. split.
      * intros [Heq | [j [Hi Hj]]].
        -- injection Heq as <- <-. exists 0. split; [lia | now apply tickerRegex_iff].
        -- exists (S j). now split.
      * intros [[|j] [Hi Hj]].
        -- left. apply tickerRegex_iff in Hj. f_equal; [lia | congruence].
        -- right. exists j. now split.
    + rewrite Hrest. split.
      * intros [j [Hi Hj]]. exists (S j). now split.
      * intros [[|j] [Hi Hj]].
        -- apply tickerRegex_iff in Hj. congruence.
        -- exists j. now split.
Qed.

Lemma located_bound (s : string) (offset i : nat) (t : string) :
  In (i, t) (located offset s) -> offset <= i.
Proof. rewrite located_iff. intros [j [-> _]]. lia. Qed.

Lemma located_sorted (s : string) (offset : nat) :
  StronglySorted lt (map fst (located offset s)).
Proof.
  revert offset; induction s as [|c s IH]; intros offset; [constructor |].
  cbn [located]. destruct (tickerRegex (String c s)); [| apply IH].
  cbn [map fst]. constructor; [apply IH |].
  apply Forall_forall. intros i Hi. apply in_map_iff in Hi.
  destruct Hi as [[i' t] [<- Hin]]. apply located_bound in Hin. simpl. lia.
Qed.

Lemma quiet_letters (g back : string) :
  allUpper g -> quiet (String.length g) (g ++ back).
Proof.
  induction g as [|c g IH]; intros Hup; [exact I |].
  destruct Hup as [Hc Hup]. simpl. split; [now apply upper_not_dollar | now apply IH].
Qed.

(** Resuming behind a match loses nothing: no match starts inside one. *)
Lemma matchAll_located (s : string) (skip offset : nat) :
  quiet skip s -> matchAll skip s = map snd (located offset s).
Proof.
  revert skip offset; induction s as [|c s IH]; intros skip offset Hq; [reflexivity |].
  cbn [matchAll located]. destruct skip as [|k].
  - destruct (tickerRegex (String c s)) as [g|] eqn:Hm.
    + cbn [map snd]. f_equal. apply IH.
      apply tickerRegex_iff in Hm.
      destruct Hm as [[_ Hup] [front [back [Hs [Hl _]]]]].
      destruct front; [| discriminate Hl].
      inversion Hs. now apply quiet_letters.
    + now apply IH.
  - destruct Hq as [Hc Hq].
    assert (Hm : tickerRegex (String c s) = None).
    { unfold tickerRegex. destruct (Ascii.eqb c "$") eqn:E; [| reflexivity].
      apply Ascii.eqb_eq in E. contradiction. }
    rewrite Hm. now apply IH.
Qed.

(** The set built by adding the members of [l] one after the other. *)
Lemma fold_setAdd_snoc (l : list string) (x : string) :
  fold_left setAdd (l ++ [x]) [] = setAdd (fold_left setAdd l []) x.
Proof. now rewrite fold_left_app. Qed.

Lemma setAdd_in (members : list string) (x t : string) :
  In t (setAdd members x) <-> In t members \/ t = x.
Proof.
  unfold setAdd. destruct (existsb (String.eqb x) members) eqn:E.
  - split; [now left |]. intros [H | ->]; [assumption |].
    apply existsb_exists in E. destruct E as [y [Hy Heq]].
    apply String.eqb_eq in Heq. now subst.
  - rewrite in_app_iff. simpl. intuition.
Qed.

Lemma setAdd_absent (members : list string) (x : string) :
  existsb (String.eqb x) members = false -> ~ In x members.
Proof.
  intros E H. assert (existsb (String.eqb x) members = true); [| congruence].
  apply existsb_exists. exists x. split; [assumption | apply String.eqb_refl].
Qed.

Lemma setAdd_cases (members : list string) (x : string) :
  (In x members /\ setAdd members x = members) \/
  (~ In x members /\ setAdd members x = members ++ [x]).
Proof.
  unfold setAdd. destruct (existsb (String.eqb x) members) eqn:E.
  - left. split; [| reflexivity]. apply existsb_exists in E.
    destruct E as [y [Hy Heq]]. apply String.eqb_eq in Heq. now subst.
  - right. split; [now apply setAdd_absent | reflexivity].
Qed.

Lemma fold_setAdd_in (l : list string) (t : string) :
  In t (fold_left setAdd l []) <-> In t l.
Proof.
  induction l as [|x l IH] using rev_ind; [reflexivity |].
  rewrite fold_setAdd_snoc, setAdd_in, IH, in_app_iff. simpl. intuition.
Qed.

Lemma fold_setAdd_NoDup (l : list string) : NoDup (fold_left setAdd l []).
Proof.
  induction l as [|x l IH] using rev_ind; [constructor |].
  rewrite fold_setAdd_snoc.
  destruct (setAdd_cases (fold_left setAdd l []) x) as [[_ ->] | [Hx ->]];
    [assumption |].
  apply NoDup_app; [assumption | repeat constructor; intros [] |].
  intros y Hy [<- | []]. exact (Hx Hy).
Qed.

Lemma before_snoc {A : Type} (x y z : A) (l : list A) :
  before x y (l ++ [z]) -> before x y l \/ (y = z /\ In x l).
Proof.
  intros [l1 [l2 [l3 H]]].
  destruct l3 as [|w l3].
  - right.
    assert (E : l1 ++ x :: l2 ++ [y] = (l1 ++ x :: l2) ++ [y])
      by now rewrite <- app_assoc.
    rewrite E in H. apply app_inj_tail in H. destruct H as [-> ->].
    split; [reflexivity |]. apply in_or_app. right. now left.
  - left.
    destruct (@exists_last _ (w :: l3)) as [l3' [w' E3]]; [discriminate |].
    rewrite E3 in H.
    assert (E : l1 ++ x :: l2 ++ y :: l3' ++ [w']
                = (l1 ++ x :: l2 ++ y :: l3') ++ [w']).
    { rewrite <- app_assoc. simpl. now rewrite <- app_assoc. }
    rewrite E in H. apply app_inj_tail in H. destruct H as [-> _].
    now exists l1, l2, l3'.
Qed.

(** A member that comes earlier in the set was met earlier in the list. *)
Lemma fold_setAdd_order (l : list string) (x y : string) :
  before x y (fold_left setAdd l []) ->
  exists l1 l2, l = l1 ++ x :: l2 /\ ~ In y l1.
Proof.
  induction l as [|z l IH] using rev_ind; intros H.
  - destruct H as [l1 [l2 [l3 H]]]. destruct l1; discriminate.
  - rewrite fold_setAdd_snoc in H.
    destruct (setAdd_cases (fold_left setAdd l []) z) as [[_ E] | [Hz E]];
      rewrite E in H.
    + destruct (IH H) as [l1 [l2 [-> Hy]]].
      exists l1, (l2 ++ [z]). split; [now rewrite <- app_assoc | assumption].
    + apply before_snoc in H. destruct H as [H | [-> Hx]].
      * destruct (IH H) as [l1 [l2 [-> Hy]]].
        exists l1, (l2 ++ [z]). split; [now rewrite <- app_assoc | assumption].
      * apply (proj1 (fold_setAdd_in _ _)) in Hx. apply in_split in Hx.
        destruct Hx as [l1 [l2 ->]].
        exists l1, (l2 ++ [z]). split; [now rewrite <- app_assoc |].
        intros Hin. apply Hz. apply (proj2 (fold_setAdd_in _ _)).
        apply in_or_app. now left.
Qed.

Lemma before_distinct {A : Type} (x y : A) (l : list A) :
  NoDup l -> before x y l -> x <> y.
Proof.
  intros Hnd [l1 [l2 [l3 ->]]] <-.
  apply NoDup_remove_2 in Hnd. apply Hnd.
  apply in_or_app. right. apply in_or_app. right. now left.
Qed.

Lemma sorted_after (occ1 occ2 : list (nat * string)) (i j : nat) (t u : string) :
  StronglySorted lt (map fst (occ1 ++ (i, t) :: occ2)) ->
  In (j, u) occ2 -> i < j.
Proof.
  rewrite map_app. cbn [map fst]. intros Hs Hin.
  induction (map fst occ1) as [|k ks IH].
  - simpl in Hs. inversion Hs as [|? ? _ Hall]. subst.
    rewrite Forall_forall in Hall. apply Hall. now apply (in_map fst) in Hin.
  - inversion Hs. now apply IH.
Qed.

(** C2. For every text the extractor returns, without duplicates, the
    tokens that stand in the text (a dollar sign, one to five uppercase
    Latin letters, a word boundary; the dollar sign stripped), in the
    order of their first appearance: a token listed before another
    appears in the text before every appearance of the other.  A text
    without tokens, the empty text among them, gives the empty list. *)
Theorem extractTickers_first_appearance (text : string) :
  NoDup (extractTickers text) /\
  (forall t, In t (extractTickers text) <-> exists i, tokenAt text i t) /\
  (forall t u, before t u (extractTickers text) ->
     exists i, tokenAt text i t /\ forall j, tokenAt text j u -> i < j) /\
  ((forall i t, ~ tokenAt text i t) -> extractTickers text = []) /\
  extractTickers "" = [].
Proof.
  unfold extractTickers.
  rewrite (matchAll_located text 0 0 I).
  assert (Hin : forall t, In t (fold_left setAdd (map snd (located 0 text)) [])
                          <-> exists i, tokenAt text i t).
  { intros t. rewrite fold_setAdd_in, in_map_iff. split.
    - intros [[i t'] [<- H]]. apply located_iff in H.
      destruct H as [j [_ Hj]]. now exists j.
    - intros [i H]. exists (i, t). split; [reflexivity |].
      apply located_iff. now exists i. }
  split; [apply fold_setAdd_NoDup |]. split; [exact Hin |]. split; [| split].
  - intros t u Hb.
    pose proof (before_distinct _ _ _ (fold_setAdd_NoDup _) Hb) as Hne.
    apply fold_setAdd_order in Hb. destruct Hb as [l1 [l2 [Hl Hu]]].
    apply map_eq_app in Hl. destruct Hl as [occ1 [rest [Hocc [H1 Hrest]]]].
    apply map_eq_cons in Hrest. destruct Hrest as [[i t'] [occ2 [-> [Ht H2]]]].
    simpl in Ht. subst t' l1.
    assert (Hi : In (i, t) (located 0 text)).
    { rewrite Hocc. apply in_or_app. right. now left. }
    apply located_iff in Hi. destruct Hi as [i' [Hi' Hi]]. simpl in Hi'. subst i'.
    exists i. split; [assumption |]. intros j Hj.
    assert (Hju : In (j, u) (located 0 text)) by (apply located_iff; now exists j).
    rewrite Hocc in Hju. apply in_app_or in Hju. destruct Hju as [Hju | [Hju | Hju]].
    + exfalso. apply Hu. now apply (in_map snd) in Hju.
    + congruence.
    + pose proof (located_sorted text 0) as Hs. rewrite Hocc in Hs.
      exact (sorted_after _ _ _ _ _ _ Hs Hju).
  - intros Hnone.
    destruct (fold_left setAdd (map snd (located 0 text)) []) as [|t l] eqn:E;
      [reflexivity |].
    exfalso. destruct (proj1 (Hin t)) as [i Hi]; [now left |].
    exact (Hnone i t Hi).
  - reflexivity.
Qed.

(** The example of the specification. *)
Example extractTickers_sample :
  extractTickers "$SPY up, $TSLA down, $SPY again" = ["SPY"; "TSLA"] /\
  extractTickers "$TSLAXY $tsla $A1 $NVDA." = ["NVDA"].
Proof. split; reflexivity. Qed.

End Extractor.

(* ================================================================= *)
(** ** The inclusion filter *)

Section InclusionFilter.
Import Js Utils Spec Scraper.

Lemma isMemePost_iff (p : RawPost) :
  isMemePost p = true <-> hasVisualContent (determinePostType p).
Proof.
  unfold isMemePost, hasVisualContent.
  destruct (determinePostType p); simpl; intuition discriminate.
Qed.

(** C3. The filter rejects a post exactly when the post has no visual
    content, or is adult-flagged while the configuration excludes adult
    content, or has a score below the minimum of upvotes, or has fewer
    comments than the minimum; otherwise it accepts.  In particular an
    adult-flagged post is rejected under a configuration that excludes
    adult content whatever its engagement. *)
Theorem shouldIncludePost_rejects_iff :
  (forall config p,
      shouldIncludePost config p = false <->
      ~ hasVisualContent (determinePostType p)
      \/ (over_18 p = true /\ includeNSFW config = false)
      \/ (score p < minUpvotes config)%Z
      \/ (num_comments p < minComments config)%Z) /\
  (forall config p,
      shouldIncludePost config p = true <->
      hasVisualContent (determinePostType p)
      /\ ~ (over_18 p = true /\ includeNSFW config = false)
      /\ (minUpvotes config <= score p)%Z
      /\ (minComments config <= num_comments p)%Z) /\
  (forall config p,
      over_18 p = true -> includeNSFW config = false ->
      shouldIncludePost config p = false).
Proof.
  assert (Haccept : forall config p,
      shouldIncludePost config p = true <->
      hasVisualContent (determinePostType p)
      /\ ~ (over_18 p = true /\ includeNSFW config = false)
      /\ (minUpvotes config <= score p)%Z
      /\ (minComments config <= num_comments p)%Z).
  { intros config p. unfold shouldIncludePost. rewrite <- isMemePost_iff.
    destruct (isMemePost p); simpl; [| intuition discriminate].
    destruct (over_18 p), (includeNSFW config); simpl;
      try (intuition discriminate);
      destruct (Z.ltb_spec (score p) (minUpvotes config));
      try (intuition (discriminate || lia));
      destruct (Z.ltb_spec (num_comments p) (minComments config));
      intuition (discriminate || lia). }
  split; [| split; [exact Haccept |]].
  - intros config p. rewrite <- not_true_iff_false, Haccept.
    destruct (over_18 p), (includeNSFW config);
      intuition (try discriminate; try lia);
      destruct (Z.lt_ge_cases (score p) (minUpvotes config));
      destruct (Z.lt_ge_cases (num_comments p) (minComments config));
      intuition (try discriminate; try lia).
  - intros config p Hadult Hexcl.
    apply not_true_iff_false. rewrite Haccept. intuition.
Qed.

Lemma shouldIncludePost_rejects_iff_witness :
  shouldIncludePost Examples.familyConfig (Examples.asAdult Examples.imagePost) = false.
Proof.
  destruct shouldIncludePost_rejects_iff as [_ [_ Hadult]].
  apply Hadult; reflexivity.
Defined.

End InclusionFilter.

(* ================================================================= *)
(** ** Sorting by a key, largest first *)

Section SortFacts.
Import Js Spec Aux.
Context {A : Type} (key : A -> Z) (comparefn : A -> A -> Z).
Hypothesis comparefn_key : forall a b, comparefn a b = (key b - key a)%Z.

Lemma insert_perm (x : A) (l : list A) :
  Permutation (insert comparefn x l) (x :: l).
Proof.
  induction l as [|y l IH]; simpl; [reflexivity |].
  destruct (comparefn x y <=? 0)%Z; [reflexivity |].
  rewrite IH. apply perm_swap.
Qed.

Lemma sort_perm (l : list A) : Permutation (sort comparefn l) l.
Proof.
  induction l as [|x l IH]; simpl; [reflexivity |].
  rewrite insert_perm. now constructor.
Qed.

Lemma insert_descending (x : A) (l : list A) :
  descending key l -> descending key (insert comparefn x l).
Proof.
  unfold descending. induction l as [|y l IH]; intros Hs; simpl.
  - repeat constructor.
  - inversion Hs as [|? ? Hl Hy]; subst.
    destruct (Z.leb_spec (comparefn x y) 0) as [Hle | Hgt];
      rewrite comparefn_key in *.
    + constructor; [assumption |]. constructor; [lia |].
      rewrite Forall_forall in *. intros z Hz. specialize (Hy z Hz). lia.
    + constructor; [now apply IH |].
      rewrite Forall_forall in *. intros z Hz.
      apply (Permutation_in _ (insert_perm x l)) in Hz.
      destruct Hz as [<- | Hz]; [lia | now apply Hy].
Qed.

Lemma sort_descending (l : list A) : descending key (sort comparefn l).
Proof.
  induction l as [|x l IH]; simpl; [constructor | now apply insert_descending].
Qed.

(** Insertion keeps the order among the elements of one key. *)
Lemma insert_filter (k : Z) (x : A) (l : list A) :
  filter (keyIs key k) (insert comparefn x l) = filter (keyIs key k) (x :: l).
Proof.
  induction l as [|y l IH]; [reflexivity |].
  cbn [insert]. destruct (Z.leb_spec (comparefn x y) 0) as [Hle | Hgt];
    [reflexivity |].
  rewrite comparefn_key in Hgt.
  cbn [filter] in *. rewrite IH. unfold keyIs.
  destruct (Z.eqb_spec (key x) k), (Z.eqb_spec (key y) k); try reflexivity. lia.
Qed.

Lemma sort_filter (k : Z) (l : list A) :
  filter (keyIs key k) (sort comparefn l) = filter (keyIs key k) l.
Proof.
  induction l as [|x l IH]; [reflexivity |].
  cbn [sort]. rewrite insert_filter. cbn [filter]. now rewrite IH.
Qed.

Lemma descending_head (a x : A) (l : list A) :
  descending key (a :: l) -> In x (a :: l) -> (key x <= key a)%Z.
Proof.
  intros Hs [<- | Hx]; [lia |].
  inversion Hs as [|? ? _ Ha]; subst. rewrite Forall_forall in Ha. now apply Ha.
Qed.

Lemma filter_keyIs_head (a : A) (l : list A) :
  filter (keyIs key (key a)) (a :: l) = a :: filter (keyIs key (key a)) l.
Proof. cbn [filter]. unfold keyIs at 1. now rewrite Z.eqb_refl. Qed.

Lemma filter_keyIs_other (k : Z) (a : A) (l : list A) :
  key a <> k -> filter (keyIs key k) (a :: l) = filter (keyIs key k) l.
Proof.
  intros Hk. cbn [filter]. unfold keyIs at 1.
  now destruct (Z.eqb_spec (key a) k).
Qed.

(** Two arrangements, both descending, that agree on the order within
    every key are the same list. *)
Lemma descending_unique (l1 l2 : list A) :
  descending key l1 -> descending key l2 ->
  (forall k, filter (keyIs key k) l1 = filter (keyIs key k) l2) ->
  l1 = l2.
Proof.
  revert l2; induction l1 as [|a l1 IH]; intros l2 H1 H2 Hf.
  - destruct l2 as [|b l2]; [reflexivity |].
    specialize (Hf (key b)). rewrite filter_keyIs_head in Hf. discriminate.
  - destruct l2 as [|b l2].
    + specialize (Hf (key a)). rewrite filter_keyIs_head in Hf. discriminate.
    + assert (Hab : key a = key b).
      { apply Z.le_antisymm.
        - apply (descending_head b a l2 H2).
          apply (proj1 (filter_In (keyIs key (key a)) a (b :: l2))).
          rewrite <- Hf, filter_keyIs_head. now left.
        - apply (descending_head a b l1 H1).
          apply (proj1 (filter_In (keyIs key (key b)) b (a :: l1))).
          rewrite Hf, filter_keyIs_head. now left. }
      pose proof (Hf (key a)) as Hhead.
      rewrite filter_keyIs_head, Hab, filter_keyIs_head in Hhead.
      injection Hhead as -> Htail. f_equal.
      inversion H1; inversion H2; subst. apply IH; try assumption.
      intros k. destruct (Z.eq_dec k (key b)) as [-> | Hk]; [assumption |].
      specialize (Hf k).
      rewrite !filter_keyIs_other in Hf by congruence. exact Hf.
Qed.

(** The stable sort is determined: whatever arrangement is descending
    and keeps the order within every key is the result of [sort]. *)
Lemma sort_unique (l result : list A) :
  descending key result ->
  (forall k, filter (keyIs key k) result = filter (keyIs key k) l) ->
  result = sort comparefn l.
Proof.
  intros Hs Hf. apply descending_unique; [assumption | apply sort_descending |].
  intros k. now rewrite sort_filter.
Qed.

Lemma before_cons (x a b : A) (l : list A) : before a b l -> before a b (x :: l).
Proof. intros [l1 [l2 [l3 ->]]]. now exists (x :: l1), l2, l3. Qed.

Lemma before_filter (f : A -> bool) (a b : A) (l : list A) :
  before a b (filter f l) -> before a b l.
Proof.
  induction l as [|x l IH]; intros H.
  - destruct H as [l1 [l2 [l3 H]]]. destruct l1; discriminate.
  - cbn [filter] in H. destruct (f x); [| now apply before_cons, IH].
    destruct H as [[|y l1] [l2 [l3 H]]].
    + injection H as -> H.
      assert (Hb : In b l).
      { apply (proj1 (filter_In f b l)). rewrite H.
        apply in_or_app. right. now left. }
      apply in_split in Hb. destruct Hb as [m1 [m2 ->]].
      now exists [], m1, m2.
    + injection H as -> H. apply before_cons, IH. now exists l1, l2, l3.
Qed.

Lemma filter_before (f : A -> bool) (a b : A) (l : list A) :
  f a = true -> f b = true -> before a b l -> before a b (filter f l).
Proof.
  intros Ha Hb [l1 [l2 [l3 ->]]].
  exists (filter f l1), (filter f l2), (filter f l3).
  rewrite filter_app. cbn [filter]. rewrite Ha, filter_app. cbn [filter].
  now rewrite Hb.
Qed.

(** Stability, read on pairs: elements of equal key keep their order. *)
Lemma sort_stable (a b : A) (l : list A) :
  key a = key b ->
  (before a b (sort comparefn l) <-> before a b l).
Proof.
  intros Hab.
  assert (Ha : keyIs key (key a) a = true) by apply Z.eqb_refl.
  assert (Hb : keyIs key (key a) b = true) by (unfold keyIs; rewrite Hab; apply Z.eqb_refl).
  split; intros H.
  - apply (filter_before _ _ _ _ Ha Hb) in H. rewrite sort_filter in H.
    now apply before_filter in H.
  - apply (filter_before _ _ _ _ Ha Hb) in H. rewrite <- sort_filter in H.
    now apply before_filter in H.
Qed.

End SortFacts.

(* ================================================================= *)
(** ** The aggregator *)

Section Aggregator.
Import Js Utils Spec Aux Scraper.
Variable getHot : string -> Z -> Outcome (list RawPost).
Variable config : ScraperConfig.

Lemma scrapeAll_eq (names : list string) (allMemes : list MemePost)
  (console : list LogLine) :
  scrapeAll getHot config names allMemes console
  = (allMemes ++ flat_map (contribution getHot config) names,
     console ++ flat_map (report getHot config) names).
Proof.
  revert allMemes console; induction names as [|s names IH]; intros allMemes console.
  - simpl. now rewrite !app_nil_r.
  - cbn [scrapeAll flat_map]. unfold contribution at 1, report at 1.
    destruct (fetchFromSubreddit getHot config s) as [memes | error];
      rewrite IH; cbn [app]; now rewrite <- !app_assoc.
Qed.

Lemma fetchMemes_eq :
  fetchMemes getHot config
  = (Returned (sort byUpvotes (flat_map (contribution getHot config) (subreddits config))),
     flat_map (report getHot config) (subreddits config)).
Proof. unfold fetchMemes. now rewrite scrapeAll_eq. Qed.

Lemma byUpvotes_key (a b : MemePost) : byUpvotes a b = (upvotesOf b - upvotesOf a)%Z.
Proof. reflexivity. Qed.

(** The loop over the posts of a source returns when every accepted post
    converts, with the conversions in the order of the posts. *)
Lemma convertAll_returned (subredditName : string) (posts : list RawPost)
  (memes result : list MemePost) :
  convertAll config subredditName posts memes = Returned result <->
  exists converted,
    result = memes ++ converted /\
    Forall2 (fun post meme => convertToMemePost post subredditName = Returned meme)
            (filter (shouldIncludePost config) posts) converted.
Proof.
  revert memes; induction posts as [|post posts IH]; intros memes.
  - simpl. split.
    + intros [= <-]. exists []. split; [now rewrite app_nil_r | constructor].
    + intros [converted [-> H]]. inversion H. now rewrite app_nil_r.
  - cbn [convertAll filter]. destruct (shouldIncludePost config post); [| apply IH].
    destruct (convertToMemePost post subredditName) as [meme | error] eqn:E.
    + cbn [bind]. rewrite IH. split.
      * intros [converted [-> H]]. exists (meme :: converted).
        split; [now rewrite <- app_assoc | now constructor].
      * intros [converted [-> H]]. inversion H as [|? m ? rest Hm Hrest]; subst.
        assert (m = meme) by congruence. subst m.
        exists rest. split; [now rewrite <- app_assoc | assumption].
    + cbn [bind]. split; [discriminate |].
      intros [converted [_ H]]. inversion H; congruence.
Qed.

(** The loop fails as a whole as soon as one accepted post fails to
    convert: the catch is around the source, not around the record. *)
Lemma convertAll_thrown (subredditName : string) (posts : list RawPost)
  (memes : list MemePost) :
  (exists error, convertAll config subredditName posts memes = Thrown error) <->
  exists post error,
    In post posts /\ shouldIncludePost config post = true /\
    convertToMemePost post subredditName = Thrown error.
Proof.
  revert memes; induction posts as [|post posts IH]; intros memes.
  - simpl. split; [intros [e H]; discriminate | intros [p [e [[] _]]]].
  - cbn [convertAll]. destruct (shouldIncludePost config post) eqn:Hinc.
    + destruct (convertToMemePost post subredditName) as [meme | error] eqn:E.
      * cbn [bind]. rewrite IH. split.
        -- intros [p [e [Hin H]]]. exists p, e. split; [now right | assumption].
        -- intros [p [e [[<- | Hin] [H1 H2]]]]; [congruence |]. now exists p, e.
      * cbn [bind]. split; [| intros _; now exists error].
        intros _. exists post, error. repeat split; try assumption. now left.
    + rewrite IH. split.
      * intros [p [e [Hin H]]]. exists p, e. split; [now right | assumption].
      * intros [p [e [[<- | Hin] [H1 H2]]]]; [congruence |]. now exists p, e.
Qed.

End Aggregator.

Section AggregatorProperties.
Import Js Utils Spec Aux Scraper.

(** C4. Whatever the fetches do, fetchMemes returns to its caller and never
    raises; the result holds exactly the posts of the sources that
    succeeded (filtered and normalized, in sorted order); a source whose
    fetch fails adds nothing, its failure is written to the console, and
    the sources after it are still processed.  With two sources of which
    the first fails and the second succeeds, the result is the second
    source's posts. *)
Theorem fetchMemes_partial_failure :
  forall (getHot : string -> Z -> Outcome (list RawPost)) (config : ScraperConfig),
    (exists result,
        fetchMemes getHot config
        = (Returned result, flat_map (report getHot config) (subreddits config)) /\
        Permutation result
          (flat_map (contribution getHot config) (subreddits config))) /\
    (forall s e,
        In s (subreddits config) -> getHot s (limit config) = Thrown e ->
        contribution getHot config s = [] /\
        In (LogError s e) (snd (fetchMemes getHot config))) /\
    (forall s posts memes,
        getHot s (limit config) = Returned posts ->
        Forall2 (fun post meme => convertToMemePost post s = Returned meme)
                (filter (shouldIncludePost config) posts) memes ->
        contribution getHot config s = memes) /\
    (forall a b e posts memes,
        subreddits config = [a; b] ->
        getHot a (limit config) = Thrown e ->
        getHot b (limit config) = Returned posts ->
        Forall2 (fun post meme => convertToMemePost post b = Returned meme)
                (filter (shouldIncludePost config) posts) memes ->
        fetchMemes getHot config
        = (Returned (sort byUpvotes memes),
           [LogScraping a; LogError a e; LogScraping b; LogFound (List.length memes) b]) /\
        Permutation (sort byUpvotes memes) memes).
Proof.
  intros getHot config.
  assert (Hfail : forall s e, getHot s (limit config) = Thrown e ->
                              fetchFromSubreddit getHot config s = Thrown e).
  { intros s e H. unfold fetchFromSubreddit. now rewrite H. }
  assert (Hok : forall s posts memes,
             getHot s (limit config) = Returned posts ->
             Forall2 (fun post meme => convertToMemePost post s = Returned meme)
                     (filter (shouldIncludePost config) posts) memes ->
             fetchFromSubreddit getHot config s = Returned memes).
  { intros s posts memes H Hconv. unfold fetchFromSubreddit. rewrite H. cbn [bind].
    apply convertAll_returned. now exists memes. }
  split; [| split; [| split]].
  - eexists. split; [apply fetchMemes_eq |]. apply sort_perm.
  - intros s e Hin H. apply Hfail in H. split.
    + unfold contribution. now rewrite H.
    + rewrite fetchMemes_eq. cbn [snd]. apply in_flat_map. exists s.
      split; [assumption |]. unfold report. rewrite H. right. now left.
  - intros s posts memes H Hconv. unfold contribution. now rewrite (Hok _ _ _ H Hconv).
  - intros a b e posts memes Hsub Ha Hb Hconv. split.
    + rewrite fetchMemes_eq, Hsub. cbn [flat_map]. unfold contribution, report.
      rewrite (Hfail _ _ Ha), (Hok _ _ _ Hb Hconv). cbn [app]. now rewrite app_nil_r.
    + apply sort_perm.
Qed.

Lemma fetchMemes_partial_failure_witness :
  exists memes,
    List.length memes = 3 /\
    fetchMemes Examples.stocksDown Examples.stocksFirst
    = (Returned (sort byUpvotes memes),
       [LogScraping "stocks";
        LogError "stocks" (Rejected "503 Service Unavailable");
        LogScraping "wallstreetbets";
        LogFound (List.length memes) "wallstreetbets"]).
Proof.
  destruct (fetchMemes_partial_failure Examples.stocksDown Examples.stocksFirst)
    as [_ [_ [_ Htwo]]].
  eexists. split; cycle 1.
  - refine (proj1 (Htwo "stocks" "wallstreetbets" _ Examples.threePosts _
                        eq_refl eq_refl eq_refl _)).
    repeat (first [apply Forall2_nil | apply Forall2_cons]); reflexivity.
  - reflexivity.
Defined.

(** C6. Whatever the configuration and the fetches, the sequence that
    fetchMemes returns is a rearrangement of the fetched posts (sources in
    the order of the configuration, the posts of a source in the order of
    the fetch) that is sorted by upvotes, largest first, and stable: posts
    with equal upvotes keep their fetch order. *)
Theorem fetchMemes_sorted_stable :
  forall (getHot : string -> Z -> Outcome (list RawPost)) (config : ScraperConfig),
    let fetched := flat_map (contribution getHot config) (subreddits config) in
    exists result,
      fst (fetchMemes getHot config) = Returned result /\
      Permutation result fetched /\
      StronglySorted (fun a b => (upvotes (engagement b) <= upvotes (engagement a))%Z)
                     result /\
      (forall k, filter (fun m => (upvotes (engagement m) =? k)%Z) result
                 = filter (fun m => (upvotes (engagement m) =? k)%Z) fetched) /\
      (forall a b, upvotes (engagement a) = upvotes (engagement b) ->
                   (before a b result <-> before a b fetched)) /\
      (forall s posts memes,
          getHot s (limit config) = Returned posts ->
          contribution getHot config s = memes ->
          memes = [] \/
          Forall2 (fun post meme => convertToMemePost post s = Returned meme)
                  (filter (shouldIncludePost config) posts) memes).
Proof.
  intros getHot config fetched. exists (sort byUpvotes fetched).
  split; [now rewrite fetchMemes_eq |].
  split; [apply sort_perm |].
  split; [exact (sort_descending upvotesOf byUpvotes byUpvotes_key fetched) |].
  split; [intros k; exact (sort_filter upvotesOf byUpvotes byUpvotes_key k fetched) |].
  split; [intros a b Hab; exact (sort_stable upvotesOf byUpvotes byUpvotes_key a b fetched Hab) |].
  intros s posts memes Hget <-. unfold contribution, fetchFromSubreddit.
  rewrite Hget. cbn [bind].
  destruct (convertAll config s posts []) as [memes | error] eqn:E; [| now left].
  right. apply convertAll_returned in E. destruct E as [converted [-> H]]. exact H.
Qed.

(** C7, as the specification states it, fails: a record without author is
    not defaulted, its conversion raises, and the error ends the batch of
    its source, whose two well-formed records are lost with it, although
    all three records pass the filter and the two alone are returned. *)
Lemma missing_author_aborts_batch :
  (exists error,
      convertToMemePost (Examples.withoutAuthor Examples.imagePost) "wallstreetbets"
      = Thrown error) /\
  filter (shouldIncludePost (constructor Examples.nothingGiven))
         [Examples.withScore 300 Examples.imagePost;
          Examples.withoutAuthor Examples.imagePost;
          Examples.withScore 900 Examples.imagePost]
  = [Examples.withScore 300 Examples.imagePost;
     Examples.withoutAuthor Examples.imagePost;
     Examples.withScore 900 Examples.imagePost] /\
  fst (fetchMemes Examples.oneWithoutAuthor (constructor Examples.nothingGiven))
  = Returned [] /\
  (exists meme900 meme300,
      fst (fetchMemes Examples.allWithAuthor (constructor Examples.nothingGiven))
      = Returned [meme900; meme300]).
Proof.
  split; [eexists; reflexivity |]. split; [reflexivity |].
  split; [reflexivity |]. eexists. eexists. reflexivity.
Qed.

(** C7, amended.  A record with an author whose body text, award count,
    URL or media data is missing is normalized with defaults and does not
    fail: an empty body text, an award count of 0, an absent media URL, and
    the empty URL for the classification.  Failures are contained per
    source and not per record: when the conversion of an accepted record
    raises, the batch of its source is given up, the source adds nothing,
    the error is written to the console, and fetchMemes still returns the
    posts of the other sources. *)
Theorem convertToMemePost_defaults :
  (forall post subredditName user,
      author post = Some user ->
      exists meme,
        convertToMemePost post subredditName = Returned meme /\
        (selftext post = None ->
         tickers meme = extractTickers (title post ++ " ")) /\
        (total_awards_received post = None -> awards (engagement meme) = 0%Z) /\
        (url post = None -> media_fallback_url post = None ->
         preview_url post = None -> media_metadata post = None ->
         mediaUrl meme = None) /\
        postType meme = determinePostType post) /\
  (forall p q,
      url p = None -> url q = Some "" ->
      is_gallery p = is_gallery q -> post_hint p = post_hint q ->
      determinePostType p = determinePostType q) /\
  (forall (getHot : string -> Z -> Outcome (list RawPost)) config s posts post error,
      In s (subreddits config) ->
      getHot s (limit config) = Returned posts ->
      In post posts -> shouldIncludePost config post = true ->
      convertToMemePost post s = Thrown error ->
      contribution getHot config s = [] /\
      (exists error', In (LogError s error') (snd (fetchMemes getHot config))) /\
      fst (fetchMemes getHot config)
      = Returned (sort byUpvotes
                   (flat_map (contribution getHot config) (subreddits config)))).
Proof.
  split; [| split].
  - intros post subredditName user Hauthor. unfold convertToMemePost.
    rewrite Hauthor. eexists. split; [reflexivity |]. cbn.
    split; [now intros -> |]. split; [now intros -> |]. split; [| reflexivity].
    intros Hu Hf Hp Hm. unfold getMediaUrl. rewrite Hu, Hf, Hp, Hm. cbn.
    now destruct (truthyFlag (is_gallery post)).
  - intros p q Hp Hq Hg Hh. unfold determinePostType. now rewrite Hp, Hq, Hg, Hh.
  - intros getHot config s posts post error Hs Hget Hin Hinc Hconv.
    assert (Hthrown : exists error', fetchFromSubreddit getHot config s = Thrown error').
    { unfold fetchFromSubreddit. rewrite Hget. cbn [bind].
      apply convertAll_thrown. now exists post, error. }
    destruct Hthrown as [error' Hthrown]. split; [| split].
    + unfold contribution. now rewrite Hthrown.
    + exists error'. rewrite fetchMemes_eq. cbn [snd]. apply in_flat_map.
      exists s. split; [assumption |]. unfold report. rewrite Hthrown. right. now left.
    + now rewrite fetchMemes_eq.
Qed.

Lemma convertToMemePost_defaults_witness :
  (exists meme,
      convertToMemePost Examples.plainPost "wallstreetbets" = Returned meme /\
      tickers meme = [] /\ awards (engagement meme) = 0%Z /\ mediaUrl meme = None) /\
  contribution Examples.oneWithoutAuthor (constructor Examples.nothingGiven)
               "wallstreetbets" = [].
Proof.
  destruct convertToMemePost_defaults as [Hdefaults [_ Hsource]]. split.
  - destruct (Hdefaults Examples.plainPost "wallstreetbets" {| name := "trader" |} eq_refl)
      as [meme [Hmeme [Htickers [Hawards [Hmedia _]]]]].
    exists meme. split; [exact Hmeme |].
    split; [exact (Htickers eq_refl) |]. split; [exact (Hawards eq_refl) |].
    exact (Hmedia eq_refl eq_refl eq_refl eq_refl).
  - refine (proj1 (Hsource Examples.oneWithoutAuthor (constructor Examples.nothingGiven)
                           "wallstreetbets" _
                           (Examples.withoutAuthor Examples.imagePost) _
                           _ eq_refl _ eq_refl eq_refl)).
    + now left.
    + right. now left.
Defined.

(** C8, as the specification states it, fails: with an empty list of
    sources nothing is reported to the caller; fetchMemes returns the empty
    sequence like any successful run. *)
Lemma empty_sources_not_reported :
  subreddits (constructor Examples.noSources) = [] /\
  fetchMemes Examples.alwaysDown (constructor Examples.noSources) = (Returned [], []) /\
  ~ (exists error,
        fst (fetchMemes Examples.alwaysDown (constructor Examples.noSources))
        = Thrown error).
Proof.
  split; [reflexivity |]. split; [reflexivity |]. intros [error H]. discriminate H.
Qed.

(** C8, amended.  An empty list of sources is not treated as a violated
    precondition: the constructor keeps it, and fetchMemes, whatever the
    fetch service would do, attempts no fetch, writes nothing to the console
    and returns the empty sequence.  Only a configuration that gives no list
    at all gets the default source "wallstreetbets". *)
Theorem fetchMemes_empty_sources :
  (forall (getHot : string -> Z -> Outcome (list RawPost)) config,
      subreddits config = [] -> fetchMemes getHot config = (Returned [], [])) /\
  (forall partial,
      opt_subreddits partial = Some [] -> subreddits (constructor partial) = []) /\
  (forall partial,
      opt_subreddits partial = None ->
      subreddits (constructor partial) = ["wallstreetbets"]).
Proof.
  split; [| split].
  - intros getHot config H. unfold fetchMemes. now rewrite H.
  - intros partial H. unfold constructor. cbn. now rewrite H.
  - intros partial H. unfold constructor. cbn. now rewrite H.
Qed.

Lemma fetchMemes_empty_sources_witness :
  fetchMemes Examples.alwaysDown (constructor Examples.noSources) = (Returned [], []) /\
  subreddits (constructor Examples.nothingGiven) = ["wallstreetbets"].
Proof.
  destruct fetchMemes_empty_sources as [Hempty [Hkept Hdefault]]. split.
  - apply Hempty. now apply Hkept.
  - now apply Hdefault.
Defined.

End AggregatorProperties.

(* ================================================================= *)
(** ** The table of ticker frequencies *)

Section Frequency.
Import Js Utils Spec Aux Scraper.

Lemma mapSet_keys (m : list (string * Z)) (k : string) (v : Z) :
  map fst (mapSet m k v) = setAdd (map fst m) k.
Proof.
  unfold setAdd. induction m as [|[k' v'] m IH]; [reflexivity |].
  cbn [mapSet map fst existsb]. destruct (String.eqb k k'); [reflexivity |].
  cbn [orb map fst]. rewrite IH.
  now destruct (existsb (String.eqb k) (map fst m)).
Qed.

Lemma mapGet_mapSet (m : list (string * Z)) (k k' : string) (v : Z) :
  mapGet (mapSet m k v) k' = if String.eqb k' k then Some v else mapGet m k'.
Proof.
  induction m as [|[k0 v0] m IH]; cbn [mapSet mapGet].
  - reflexivity.
  - destruct (String.eqb_spec k k0) as [-> | Hk]; cbn [mapGet].
    + now destruct (String.eqb k' k0).
    + rewrite IH. destruct (String.eqb_spec k' k0) as [-> | Hk'].
      * destruct (String.eqb_spec k0 k); [congruence | reflexivity].
      * reflexivity.
Qed.

Lemma mapSet_fresh (m : list (string * Z)) (k : string) (v : Z) :
  ~ In k (map fst m) -> mapSet m k v = m ++ [(k, v)].
Proof.
  induction m as [|[k' v'] m IH]; intros Hk; [reflexivity |].
  cbn [mapSet]. destruct (String.eqb_spec k k') as [-> | Hne].
  - exfalso. apply Hk. now left.
  - cbn [app]. rewrite IH; [reflexivity |]. intros H. apply Hk. now right.
Qed.

Lemma mapGet_In (m : list (string * Z)) (k : string) (v : Z) :
  NoDup (map fst m) -> (In (k, v) m <-> mapGet m k = Some v).
Proof.
  induction m as [|[k' v'] m IH]; intros Hnd.
  - simpl. split; [contradiction | discriminate].
  - cbn [map fst] in Hnd. inversion Hnd as [|? ? Hk' Hm]; subst.
    cbn [In mapGet]. destruct (String.eqb_spec k k') as [-> | Hne].
    + split.
      * intros [H | H]; [congruence |].
        exfalso. apply Hk'. now apply (in_map fst) in H.
      * intros [= ->]. now left.
    + rewrite <- (IH Hm). split; [| now right].
      intros [H | H]; [congruence | assumption].
Qed.

Lemma mapGet_None (m : list (string * Z)) (k : string) :
  mapGet m k = None <-> ~ In k (map fst m).
Proof.
  induction m as [|[k' v'] m IH]; [simpl; tauto |].
  cbn [mapGet map fst In]. destruct (String.eqb_spec k k') as [-> | Hne].
  - split; [discriminate | intros H; exfalso; apply H; now left].
  - rewrite IH. split; [intros H [E | E]; congruence | tauto].
Qed.

Lemma countTicker_keys (l : list string) (acc : list (string * Z)) :
  map fst (fold_left countTicker l acc) = fold_left setAdd l (map fst acc).
Proof.
  revert acc; induction l as [|x l IH]; intros acc; [reflexivity |].
  cbn [fold_left]. rewrite IH. unfold countTicker. now rewrite mapSet_keys.
Qed.

Lemma countTicker_count (l : list string) (acc : list (string * Z)) (t : string) :
  countOf (fold_left countTicker l acc) t
  = (countOf acc t + Z.of_nat (count_occ string_dec l t))%Z.
Proof.
  revert acc; induction l as [|x l IH]; intros acc.
  - simpl. lia.
  - cbn [fold_left count_occ]. rewrite IH.
    unfold countOf at 1, countTicker. rewrite mapGet_mapSet.
    destruct (string_dec x t) as [-> | Hne].
    + rewrite String.eqb_refl. fold (countOf acc t). lia.
    + destruct (String.eqb_spec t x); [congruence |]. fold (countOf acc t). lia.
Qed.

Lemma tickerCounts_flat (posts : list MemePost) :
  tickerCounts posts = fold_left countTicker (flat_map tickers posts) [].
Proof.
  unfold tickerCounts. generalize (@nil (string * Z)) as acc.
  induction posts as [|meme posts IH]; intros acc; [reflexivity |].
  cbn [fold_left flat_map]. now rewrite fold_left_app, IH.
Qed.

Lemma newMap_keeps (entries acc : list (string * Z)) :
  NoDup (map fst (acc ++ entries)) ->
  fold_left (fun m entry => mapSet m (fst entry) (snd entry)) entries acc
  = acc ++ entries.
Proof.
  revert acc; induction entries as [|[k v] entries IH]; intros acc Hnd.
  - simpl. now rewrite app_nil_r.
  - cbn [fold_left fst snd]. rewrite mapSet_fresh.
    + rewrite IH; rewrite <- app_assoc; [reflexivity | exact Hnd].
    + rewrite map_app in Hnd. cbn [map fst] in Hnd.
      apply NoDup_remove_2 in Hnd. intros H. apply Hnd. apply in_or_app. now left.
Qed.

Lemma byCount_key (a b : string * Z) : byCount a b = (snd b - snd a)%Z.
Proof. reflexivity. Qed.

Lemma tickerCounts_NoDup (posts : list MemePost) : NoDup (map fst (tickerCounts posts)).
Proof.
  rewrite tickerCounts_flat, countTicker_keys. apply fold_setAdd_NoDup.
Qed.

(** The sorted entries, put into a new map, stay as they are. *)
Lemma sortedTickers_eq (posts : list MemePost) :
  sortedTickers posts = sort byCount (tickerCounts posts).
Proof.
  unfold sortedTickers, newMap. rewrite newMap_keeps; [reflexivity |].
  cbn [app]. apply (Permutation_NoDup (l := map fst (tickerCounts posts))).
  - apply Permutation_map, Permutation_sym, sort_perm.
  - apply tickerCounts_NoDup.
Qed.

Lemma tickerCounts_In (posts : list MemePost) (t : string) (n : Z) :
  In (t, n) (tickerCounts posts) <->
  In t (flat_map tickers posts) /\
  n = Z.of_nat (count_occ string_dec (flat_map tickers posts) t).
Proof.
  rewrite (mapGet_In _ _ _ (tickerCounts_NoDup posts)).
  pose proof (countTicker_count (flat_map tickers posts) [] t) as Hc.
  rewrite <- tickerCounts_flat in Hc. unfold countOf in Hc. cbn [mapGet] in Hc.
  pose proof (mapGet_None (tickerCounts posts) t) as Hn.
  assert (Hkeys : In t (map fst (tickerCounts posts)) <-> In t (flat_map tickers posts)).
  { rewrite tickerCounts_flat, countTicker_keys. apply fold_setAdd_in. }
  rewrite Hkeys in Hn.
  pose proof (count_occ_In string_dec (flat_map tickers posts) t) as Hpos.
  destruct (mapGet (tickerCounts posts) t) as [m |].
  - split.
    + intros [= ->]. split; [| lia].
      destruct (in_dec string_dec t (flat_map tickers posts)) as [Hin | Hout];
        [assumption |].
      exfalso. apply (proj2 Hn) in Hout. discriminate.
    + intros [_ ->]. f_equal. lia.
  - split; [discriminate |]. intros [Hin _]. exfalso. now apply (proj1 Hn).
Qed.

Lemma before_map {A B : Type} (f : A -> B) (a b : A) (l : list A) :
  before a b l -> before (f a) (f b) (map f l).
Proof.
  intros [l1 [l2 [l3 ->]]]. exists (map f l1), (map f l2), (map f l3).
  rewrite map_app. cbn [map]. now rewrite map_app.
Qed.

(** C5. For every list of posts the table of getTrendingTickers holds one
    entry for each token of the flattened token sets, with the number of
    its occurrences there; the entries are sorted by count, largest first,
    and among entries of equal count the token met first in the flattened
    list comes first.  The token sets [SPY, TSLA] and [SPY] give SPY:2 and
    then TSLA:1. *)
Theorem sortedTickers_frequency :
  (forall posts : list MemePost,
      let tokens := flat_map tickers posts in
      let table := sortedTickers posts in
      NoDup (map fst table) /\
      (forall t n,
          In (t, n) table <->
          In t tokens /\ n = Z.of_nat (count_occ string_dec tokens t)) /\
      StronglySorted (fun a b => (snd b <= snd a)%Z) table /\
      (forall t u n,
          before (t, n) (u, n) table ->
          exists l1 l2, tokens = l1 ++ t :: l2 /\ ~ In u l1)) /\
  (forall (getHot : string -> Z -> Outcome (list RawPost)) config,
      exists posts console,
        fetchMemes getHot config = (Returned posts, console) /\
        getTrendingTickers getHot config = (Returned (sortedTickers posts), console)) /\
  sortedTickers [Examples.memeWith "first" ["SPY"; "TSLA"];
                 Examples.memeWith "second" ["SPY"]]
  = [("SPY", 2%Z); ("TSLA", 1%Z)].
Proof.
  split; [| split; [| reflexivity]].
  - intros posts. cbv zeta. rewrite sortedTickers_eq.
    pose proof (sort_perm byCount (tickerCounts posts)) as Hperm.
    split; [| split; [| split]].
    + apply (Permutation_NoDup (l := map fst (tickerCounts posts))).
      * now apply Permutation_map, Permutation_sym.
      * apply tickerCounts_NoDup.
    + intros t n. rewrite <- tickerCounts_In. split; apply Permutation_in.
      * exact Hperm.
      * now apply Permutation_sym.
    + exact (sort_descending snd byCount byCount_key (tickerCounts posts)).
    + intros t u n Hb.
      apply (proj1 (sort_stable snd byCount byCount_key (t, n) (u, n) _ eq_refl)) in Hb.
      apply (before_map fst) in Hb. cbn [fst] in Hb.
      rewrite tickerCounts_flat, countTicker_keys in Hb.
      exact (fold_setAdd_order _ _ _ Hb).
  - intros getHot config. unfold getTrendingTickers. rewrite fetchMemes_eq.
    eexists. eexists. split; reflexivity.
Qed.

Lemma count_occ_NoDup (l : list string) (t : string) :
  NoDup l -> count_occ string_dec l t = if existsb (String.eqb t) l then 1 else 0.
Proof.
  induction l as [|x l IH]; intros Hnd; [reflexivity |].
  inversion Hnd as [|? ? Hx Hl]; subst. cbn [count_occ existsb].
  destruct (string_dec x t) as [-> | Hne].
  - rewrite String.eqb_refl. cbn [orb].
    now rewrite (proj1 (count_occ_not_In string_dec l t) Hx).
  - destruct (String.eqb_spec t x); [congruence |]. cbn [orb]. now apply IH.
Qed.

(** With token sets free of duplicates, the occurrences of a token in the
    flattened list are the posts that mention it. *)
Lemma count_occ_posts (posts : list MemePost) (t : string) :
  Forall (fun meme => NoDup (tickers meme)) posts ->
  count_occ string_dec (flat_map tickers posts) t
  = List.length (filter (mentionsTicker t) posts).
Proof.
  induction posts as [|meme posts IH]; intros Hnd; [reflexivity |].
  inversion Hnd as [|? ? Hm Hrest]; subst.
  cbn [flat_map filter]. rewrite count_occ_app, (count_occ_NoDup _ _ Hm), (IH Hrest).
  unfold mentionsTicker at 2. now destruct (existsb (String.eqb t) (tickers meme)).
Qed.

Lemma convertToMemePost_NoDup (post : RawPost) (subredditName : string) (meme : MemePost) :
  convertToMemePost post subredditName = Returned meme -> NoDup (tickers meme).
Proof.
  unfold convertToMemePost. destruct (author post); [| discriminate].
  intros [= <-]. cbn [tickers]. apply fold_setAdd_NoDup.
Qed.

Lemma contribution_NoDup (getHot : string -> Z -> Outcome (list RawPost))
  (config : ScraperConfig) (s : string) :
  Forall (fun meme => NoDup (tickers meme)) (contribution getHot config s).
Proof.
  unfold contribution, fetchFromSubreddit.
  destruct (getHot s (limit config)) as [posts | error]; cbn [bind]; [| constructor].
  destruct (convertAll config s posts []) as [memes | error] eqn:E; [| constructor].
  apply convertAll_returned in E. destruct E as [converted [-> H]]. cbn [app].
  induction H as [|post meme ps ms Hm _ IH]; constructor; [| exact IH].
  exact (convertToMemePost_NoDup _ _ _ Hm).
Qed.

(** C10. Token sets are free of duplicates, so that a post adds at most 1
    to the count of a token: the frequency reported for a token is the
    number of posts whose token set contains it, and not the number of its
    mentions in the texts.  This holds for every list of posts with
    duplicate-free token sets, and the posts that fetchMemes returns are
    such. *)
Theorem ticker_frequency_counts_posts :
  (forall posts : list MemePost,
      Forall (fun meme => NoDup (tickers meme)) posts ->
      forall t n,
        In (t, n) (sortedTickers posts) <->
        (0 < n)%Z /\ n = Z.of_nat (List.length (filter (mentionsTicker t) posts))) /\
  (forall post subredditName meme,
      convertToMemePost post subredditName = Returned meme -> NoDup (tickers meme)) /\
  (forall (getHot : string -> Z -> Outcome (list RawPost)) config posts console,
      fetchMemes getHot config = (Returned posts, console) ->
      Forall (fun meme => NoDup (tickers meme)) posts) /\
  (count_occ string_dec
     (flat_map (fun post => matchAll 0 (title post)) Examples.threePosts) "SPY" = 3 /\
   fst (getTrendingTickers Examples.stocksDown Examples.stocksFirst)
   = Returned [("SPY", 2%Z); ("TSLA", 1%Z)]).
Proof.
  split; [| split; [| split; [| split; reflexivity]]].
  - intros posts Hnd t n. rewrite sortedTickers_eq.
    assert (Hin : In (t, n) (sort byCount (tickerCounts posts))
                  <-> In (t, n) (tickerCounts posts)).
    { split; apply Permutation_in;
        [apply sort_perm | apply Permutation_sym, sort_perm]. }
    rewrite Hin, tickerCounts_In, <- (count_occ_posts posts t Hnd).
    rewrite (count_occ_In string_dec). split; intros [H ->]; (split; [lia | reflexivity]).
  - exact convertToMemePost_NoDup.
  - intros getHot config posts console H. rewrite fetchMemes_eq in H.
    injection H as <- _.
    apply (Permutation_Forall
             (x := flat_map (contribution getHot config) (subreddits config))).
    + apply Permutation_sym, sort_perm.
    + induction (subreddits config) as [|s names IH]; [constructor |].
      cbn [flat_map]. apply Forall_app. split; [apply contribution_NoDup | exact IH].
Qed.

Lemma ticker_frequency_counts_posts_witness :
  In ("SPY", 2%Z)
     (sortedTickers [Examples.memeWith "first" ["SPY"; "TSLA"];
                     Examples.memeWith "second" ["SPY"]]).
Proof.
  destruct ticker_frequency_counts_posts as [Hcount _].
  apply Hcount.
  - repeat constructor; simpl; intuition discriminate.
  - split; [lia | reflexivity].
Defined.

End Frequency.


(* ================================================================= *)
(** ** The media URL *)

Section MediaUrl.
Import Js Utils Spec Aux.

Lemma truthyString_iff (s : option string) : truthyString s = true <-> present s.
Proof.
  unfold present. destruct s as [[|c rest]|]; simpl; split; try discriminate.
  - intros [u [H Hne]]. congruence.
  - intros _. now eexists.
  - reflexivity.
  - intros [u [H _]]. discriminate.
Qed.

Lemma unescapeAmp_nonempty (s : string) : s <> "" -> unescapeAmp 0 s <> "".
Proof.
  destruct s as [|c s]; [congruence |]. intros _. cbn [unescapeAmp].
  destruct (String.prefix "&amp;" (String c s)); discriminate.
Qed.

Lemma unescaped_present (s : option string) :
  present s -> present (option_map (unescapeAmp 0) s).
Proof.
  intros [u [-> Hu]]. exists (unescapeAmp 0 u).
  split; [reflexivity | now apply unescapeAmp_nonempty].
Qed.

Lemma directMedia_iff (p : RawPost) :
  (truthyString (url p)
   && (match post_hint p with Some h => String.eqb h "image" | None => false end
       || truthyFlag (is_video p)))%bool = true
  <-> directMedia p.
Proof.
  unfold directMedia.
  rewrite andb_true_iff, orb_true_iff, truthyString_iff, hint_iff, truthyFlag_iff.
  reflexivity.
Qed.

Lemma galleryMedia_iff (p : RawPost) :
  match (if truthyFlag (is_gallery p) then media_metadata p else None) with
  | Some ((_, firstMedia) :: _) => truthyString firstMedia
  | _ => false
  end = true
  <-> galleryMedia p.
Proof.
  unfold galleryMedia. pose proof (truthyFlag_iff (is_gallery p)) as Hg.
  destruct (truthyFlag (is_gallery p)).
  - destruct (media_metadata p) as [[|[key first] rest]|].
    + split; [discriminate | intros [_ [k [f [r [H _]]]]]; discriminate].
    + rewrite truthyString_iff. split.
      * intros H. split; [now apply Hg |]. now exists key, first, rest.
      * intros [_ [k [f [r [[= <- <- <-] H]]]]]. exact H.
    + split; [discriminate | intros [_ [k [f [r [H _]]]]]; discriminate].
  - split; [discriminate |]. intros [H _]. apply Hg in H. discriminate.
Qed.

Ltac settle_media :=
  repeat split;
  try (intros; reflexivity); try tauto; try assumption;
  try (intros; discriminate).

Lemma getMediaUrl_cases (p : RawPost) :
  (directMedia p -> getMediaUrl p = url p) /\
  (~ directMedia p -> present (media_fallback_url p) ->
   getMediaUrl p = media_fallback_url p) /\
  (~ directMedia p -> ~ present (media_fallback_url p) -> present (preview_url p) ->
   getMediaUrl p = option_map (unescapeAmp 0) (preview_url p)) /\
  (getMediaUrl p = None <->
   ~ directMedia p /\ ~ present (media_fallback_url p) /\
   ~ present (preview_url p) /\ ~ galleryMedia p) /\
  (forall u, getMediaUrl p = Some u -> u <> "").
Proof.
  pose proof (directMedia_iff p) as Hd.
  pose proof (truthyString_iff (media_fallback_url p)) as Hf.
  pose proof (truthyString_iff (preview_url p)) as Hp.
  pose proof (galleryMedia_iff p) as Hg.
  assert (Hsome : forall s : option string, present s -> s <> None /\
                    forall u, s = Some u -> u <> "").
  { intros s [u [-> Hu]]. split; [discriminate |]. now intros u' [= <-]. }
  unfold getMediaUrl.
  destruct (truthyString (url p)
            && (match post_hint p with Some h => String.eqb h "image" | None => false end
                || truthyFlag (is_video p)))%bool.
  { assert (Hdir : directMedia p) by now apply Hd.
    destruct (Hsome _ (proj1 Hdir)) as [Hne Hnonempty]. settle_media. }
  assert (Hnd : ~ directMedia p) by (rewrite <- Hd; discriminate).
  destruct (truthyString (media_fallback_url p)).
  { assert (Hfb : present (media_fallback_url p)) by now apply Hf.
    destruct (Hsome _ Hfb) as [Hne Hnonempty]. settle_media. }
  assert (Hnf : ~ present (media_fallback_url p)) by (rewrite <- Hf; discriminate).
  destruct (truthyString (preview_url p)).
  { assert (Hpv : present (preview_url p)) by now apply Hp.
    destruct (Hsome _ (unescaped_present _ Hpv)) as [Hne Hnonempty]. settle_media. }
  assert (Hnp : ~ present (preview_url p)) by (rewrite <- Hp; discriminate).
  destruct (if truthyFlag (is_gallery p) then media_metadata p else None)
    as [[|[key first] rest]|].
  - assert (Hng : ~ galleryMedia p) by (rewrite <- Hg; discriminate). settle_media.
  - pose proof (truthyString_iff first) as Hfirst.
    destruct (truthyString first).
    + assert (Hgm : galleryMedia p) by now apply Hg.
      assert (Hpf : present first) by now apply Hfirst.
      destruct (Hsome _ (unescaped_present _ Hpf)) as [Hne Hnonempty]. settle_media.
    + assert (Hng : ~ galleryMedia p) by (rewrite <- Hg; discriminate). settle_media.
  - assert (Hng : ~ galleryMedia p) by (rewrite <- Hg; discriminate). settle_media.
Qed.



Lemma escapeAmp_nonempty (s : string) : s <> "" -> escapeAmp s <> "".
Proof.
  destruct s as [|c s]; [congruence |]. intros _. cbn [escapeAmp].
  destruct (Ascii.eqb c "&"); discriminate.
Qed.

Lemma unescapeAmp_escapeAmp (s : string) : unescapeAmp 0 (escapeAmp s) = s.
Proof.
  induction s as [|c s IH]; [reflexivity |].
  cbn [escapeAmp]. destruct (Ascii.eqb_spec c "&") as [-> | Hc].
  - assert (Hp : String.prefix "&amp;" ("&amp;" ++ escapeAmp s) = true)
      by (apply prefix_iff; now exists (escapeAmp s)).
    change ("&amp;" ++ escapeAmp s)%string
      with (String "&" (String "a" (String "m" (String "p" (String ";" (escapeAmp s))))))
      in *.
    cbn [unescapeAmp]. now rewrite Hp, IH.
  - cbn [unescapeAmp].
    assert (Hp : String.prefix "&amp;" (String c (escapeAmp s)) = false).
    { cbn [String.prefix]. destruct (ascii_dec "&" c); [congruence | reflexivity]. }
    now rewrite Hp, IH.
Qed.

Lemma escapeAmp_plain (s : string) :
  ~ In "&"%char (list_ascii_of_string s) -> escapeAmp s = s.
Proof.
  induction s as [|c s IH]; intros H; [reflexivity |].
  cbn [escapeAmp]. destruct (Ascii.eqb_spec c "&") as [-> | Hc].
  - exfalso. apply H. now left.
  - rewrite IH; [reflexivity |]. intros Hin. apply H. now right.
Qed.

(** Unescaping undoes the escaping of ampersands: a text whose ampersands
    were all written as the entity comes back as it was, and a text without
    ampersand is left as it is.  So a post that has only a preview image,
    whose URL came escaped, gets the original URL as its media URL. *)
Theorem unescapeAmp_round_trip :
  (forall s, unescapeAmp 0 (escapeAmp s) = s) /\
  (forall s, ~ In "&"%char (list_ascii_of_string s) -> unescapeAmp 0 s = s) /\
  (forall p s,
      s <> "" -> ~ directMedia p -> ~ present (media_fallback_url p) ->
      preview_url p = Some (escapeAmp s) ->
      getMediaUrl p = Some s).
Proof.
  split; [exact unescapeAmp_escapeAmp |]. split.
  - intros s H. rewrite <- (escapeAmp_plain s H) at 1. apply unescapeAmp_escapeAmp.
  - intros p s Hs Hd Hf Hp.
    destruct (getMediaUrl_cases p) as [_ [_ [Hpreview _]]].
    rewrite Hpreview; try assumption.
    + rewrite Hp. cbn [option_map]. now rewrite unescapeAmp_escapeAmp.
    + exists (escapeAmp s). split; [assumption | now apply escapeAmp_nonempty].
Qed.

Lemma unescapeAmp_round_trip_witness :
  getMediaUrl Examples.previewPost
  = Some "https://preview.redd.it/x.jpg?width=640&format=pjpg&s=1f".
Proof.
  destruct unescapeAmp_round_trip as [_ [_ Hpreview]].
  apply Hpreview.
  - discriminate.
  - intros [_ [H | H]]; discriminate H.
  - intros [u [H _]]. discriminate H.
  - reflexivity.
Defined.

End MediaUrl.

(* ================================================================= *)
(** ** The configuration *)

Section Configuration.
Import Js Utils Aux Scraper.



(** The API client never gets half a login: the options carry a user name
    exactly when they carry a password, both are then the given ones and
    not empty, and they are left out as soon as one of them is missing or
    empty.  The application credentials are always passed on. *)
Theorem snoowrapOptions_login :
  forall credentials,
    let options := snoowrapOptions credentials in
    (optUsername options = None <-> optPassword options = None) /\
    (forall u, optUsername options = Some u ->
               username credentials = Some u /\ u <> "" /\
               present (password credentials) /\
               optPassword options = password credentials) /\
    (~ present (username credentials) \/ ~ present (password credentials) ->
     optUsername options = None /\ optPassword options = None) /\
    optClientId options = clientId credentials /\
    optClientSecret options = clientSecret credentials /\
    optUserAgent options = userAgent credentials.
Proof.
  intros credentials. cbv zeta. unfold snoowrapOptions. cbn.
  pose proof (truthyString_iff (username credentials)) as Hu.
  pose proof (truthyString_iff (password credentials)) as Hp.
  destruct (truthyString (username credentials));
    destruct (truthyString (password credentials)); cbn [andb].
  - destruct (proj1 Hu eq_refl) as [u [Eu Hune]].
    destruct (proj1 Hp eq_refl) as [w [Ew Hwne]].
    rewrite Eu, Ew.
    split; [split; discriminate |]. split; [| split; [| now repeat split]].
    + intros u' H. injection H as <-.
      split; [reflexivity |]. split; [assumption |]. split; [now exists w | reflexivity].
    + intros [H | H]; exfalso; apply H; [now exists u | now exists w].
  - repeat split; try reflexivity; discriminate.
  - repeat split; try reflexivity; discriminate.
  - repeat split; try reflexivity; discriminate.
Qed.

Lemma snoowrapOptions_login_witness :
  optUsername (snoowrapOptions Examples.halfLogin) = None /\
  optPassword (snoowrapOptions Examples.halfLogin) = None.
Proof.
  apply (proj1 (proj2 (proj2 (snoowrapOptions_login Examples.halfLogin)))).
  right. intros [u [H Hne]]. injection H as <-. now apply Hne.
Defined.

End Configuration.

(* ================================================================= *)
(** ** The tickers of a converted post *)

Section Normalizer.
Import Js Utils Spec Aux Scraper.

Lemma upperRun_space (max : nat) (x back : string) :
  upperRun max (x ++ String " " back) = upperRun max x.
Proof.
  revert x; induction max as [|m IH]; intros x; [reflexivity |].
  destruct x as [|c x]; [reflexivity |].
  cbn [upperRun append]. rewrite IH. now destruct x.
Qed.

Lemma tickerRegex_space (c : ascii) (x back : string) :
  tickerRegex (String c x ++ String " " back) = tickerRegex (String c x).
Proof. cbn [tickerRegex append]. now rewrite upperRun_space. Qed.

Lemma located_space (front back : string) (offset : nat) :
  located offset (front ++ String " " back)
  = located offset front ++ located (offset + String.length front + 1) back.
Proof.
  revert offset; induction front as [|c front IH]; intros offset.
  - cbn [append String.length located tickerRegex].
    replace (offset + 0 + 1) with (S offset) by lia. reflexivity.
  - change (String c front ++ String " " back)%string
      with (String c (front ++ String " " back)).
    cbn [located String.length].
    change (String c (front ++ String " " back))
      with (String c front ++ String " " back)%string.
    rewrite tickerRegex_space, IH.
    replace (S offset + String.length front + 1)
      with (offset + S (String.length front) + 1) by lia.
    now destruct (tickerRegex (String c front)).
Qed.

(** The matches of a text made of two parts with a space between them are
    the matches of the first part and then those of the second. *)
Lemma matchAll_space (front back : string) :
  matchAll 0 (front ++ String " " back) = matchAll 0 front ++ matchAll 0 back.
Proof.
  rewrite (matchAll_located _ 0 0 I), located_space, map_app.
  now rewrite <- (matchAll_located front 0 0 I), <- (matchAll_located back 0 _ I).
Qed.

Lemma notAmong_iff (members : list string) (t : string) :
  notAmong members t = true <-> ~ In t members.
Proof.
  unfold notAmong. rewrite negb_true_iff. split.
  - apply setAdd_absent.
  - intros H. destruct (existsb (String.eqb t) members) eqn:E; [| reflexivity].
    exfalso. apply H. apply existsb_exists in E. destruct E as [y [Hy Heq]].
    apply String.eqb_eq in Heq. now subst.
Qed.

Lemma setAdd_present (members : list string) (x : string) :
  In x members -> setAdd members x = members.
Proof.
  intros H. destruct (setAdd_cases members x) as [[_ E] | [Hout _]];
    [exact E | contradiction].
Qed.

Lemma setAdd_new (members : list string) (x : string) :
  ~ In x members -> setAdd members x = members ++ [x].
Proof.
  intros H. destruct (setAdd_cases members x) as [[Hin _] | [_ E]];
    [contradiction | exact E].
Qed.

(** Adding to a set that has members already: the members stay in front,
    and of the rest the new ones follow in their own order. *)
Lemma fold_setAdd_onto (l members : list string) :
  fold_left setAdd l members
  = members ++ filter (notAmong members) (fold_left setAdd l []).
Proof.
  induction l as [|x l IH] using rev_ind.
  - simpl. now rewrite app_nil_r.
  - rewrite !fold_left_app. cbn [fold_left]. rewrite IH.
    destruct (in_dec string_dec x (fold_left setAdd l [])) as [Hd | Hd].
    + rewrite (setAdd_present _ _ Hd). apply setAdd_present.
      destruct (in_dec string_dec x members) as [Hm | Hm].
      * apply in_or_app. now left.
      * apply in_or_app. right. apply filter_In. split; [assumption |].
        now apply notAmong_iff.
    + rewrite (setAdd_new _ _ Hd), filter_app. cbn [filter].
      destruct (in_dec string_dec x members) as [Hm | Hm].
      * assert (E : notAmong members x = false).
        { apply not_true_iff_false. rewrite notAmong_iff. tauto. }
        rewrite E, app_nil_r. apply setAdd_present. apply in_or_app. now left.
      * rewrite (proj2 (notAmong_iff members x) Hm), app_assoc.
        apply setAdd_new. intros H. apply in_app_or in H.
        destruct H as [H | H]; [contradiction |].
        apply filter_In in H. tauto.
Qed.

Lemma extractTickers_space (front back : string) :
  extractTickers (front ++ String " " back)
  = extractTickers front
    ++ filter (notAmong (extractTickers front)) (extractTickers back).
Proof.
  unfold extractTickers. rewrite matchAll_space, fold_left_app.
  apply fold_setAdd_onto.
Qed.

(** The tickers of a converted post are the tickers of its title, in
    their order, followed by those tickers of its body text that the title
    does not have: the space put between title and body keeps a token from
    running over from one into the other. *)
Theorem convertToMemePost_tickers :
  forall post subredditName meme,
    convertToMemePost post subredditName = Returned meme ->
    tickers meme
    = extractTickers (title post)
      ++ filter (notAmong (extractTickers (title post)))
                (extractTickers (bodyText post)).
Proof.
  intros post subredditName meme. unfold convertToMemePost.
  destruct (author post); [| discriminate]. intros [= <-]. cbn [tickers].
  apply extractTickers_space.
Qed.

Lemma convertToMemePost_tickers_witness :
  exists meme,
    convertToMemePost Examples.titleAndBody "wallstreetbets" = Returned meme /\
    tickers meme = ["SPY"; "NVDA"; "TSLA"; "QQQ"].
Proof.
  eexists. split; [reflexivity |].
  rewrite (convertToMemePost_tickers Examples.titleAndBody "wallstreetbets" _ eq_refl).
  reflexivity.
Defined.

Lemma extractTickers_tokens (text t : string) :
  In t (extractTickers text) -> isToken t.
Proof.
  unfold extractTickers. rewrite fold_setAdd_in, (matchAll_located text 0 0 I).
  intros H. apply in_map_iff in H. destruct H as [[i t'] [<- H]].
  apply located_iff in H. destruct H as [j [_ [Htoken _]]]. exact Htoken.
Qed.

End Normalizer.

(* ================================================================= *)
(** ** The posts and the console lines that fetchMemes gives back *)

Section ReturnedPosts.
Import Js Utils Spec Aux Scraper.
Variable getHot : string -> Z -> Outcome (list RawPost).
Variable config : ScraperConfig.

Lemma Forall2_in_r {A B : Type} (R : A -> B -> Prop) (l : list A) (l' : list B) (y : B) :
  Forall2 R l l' -> In y l' -> exists x, In x l /\ R x y.
Proof.
  induction 1 as [|x y' l l' Hxy _ IH]; intros Hin; [contradiction |].
  destruct Hin as [<- | Hin].
  - exists x. split; [now left | assumption].
  - destruct (IH Hin) as [x' [Hx' HR]]. exists x'. split; [now right | assumption].
Qed.

Lemma Forall2_in_l {A B : Type} (R : A -> B -> Prop) (l : list A) (l' : list B) (x : A) :
  Forall2 R l l' -> In x l -> exists y, In y l' /\ R x y.
Proof.
  induction 1 as [|x' y l l' Hxy _ IH]; intros Hin; [contradiction |].
  destruct Hin as [<- | Hin].
  - exists y. split; [now left | assumption].
  - destruct (IH Hin) as [y' [Hy' HR]]. exists y'. split; [now right | assumption].
Qed.

Lemma convertToMemePost_thrown (post : RawPost) (subredditName : string) :
  (exists error, convertToMemePost post subredditName = Thrown error)
  <-> author post = None.
Proof.
  unfold convertToMemePost. destruct (author post).
  - split; [intros [e H]; discriminate | discriminate].
  - split; [reflexivity | intros _; now eexists].
Qed.

(** A source fails in the conversion exactly when it delivers an accepted
    post without author. *)
Lemma convertAll_succeeds (subredditName : string) (posts : list RawPost) :
  (exists memes, convertAll config subredditName posts [] = Returned memes) <->
  (forall post, In post posts -> shouldIncludePost config post = true ->
                author post <> None).
Proof.
  pose proof (convertAll_thrown config subredditName posts []) as Ht. split.
  - intros [memes H] post Hin Hinc Hauthor.
    assert (Hthrown : exists error,
               convertAll config subredditName posts [] = Thrown error).
    { apply Ht.
      destruct (proj2 (convertToMemePost_thrown post subredditName) Hauthor)
        as [error Herr].
      now exists post, error. }
    destruct Hthrown as [error Herr]. congruence.
  - intros Hall. destruct (convertAll config subredditName posts []) as [memes | error].
    + now exists memes.
    + exfalso. destruct (proj1 Ht) as [post [e [Hin [Hinc Hconv]]]]; [now exists error |].
      apply (Hall post Hin Hinc). apply (convertToMemePost_thrown post subredditName).
      now exists e.
Qed.

(** Where a meme of a source comes from. *)
Lemma contribution_origin (s : string) (meme : MemePost) :
  In meme (contribution getHot config s) <->
  exists fetched post,
    getHot s (limit config) = Returned fetched /\
    (forall p, In p fetched -> shouldIncludePost config p = true -> author p <> None) /\
    In post fetched /\ shouldIncludePost config post = true /\
    convertToMemePost post s = Returned meme.
Proof.
  unfold contribution, fetchFromSubreddit.
  destruct (getHot s (limit config)) as [fetched | error]; cbn [bind].
  2:{ split; [contradiction | intros [f [p [H _]]]; discriminate]. }
  pose proof (convertAll_succeeds s fetched) as Hok.
  destruct (convertAll config s fetched []) as [memes | error] eqn:E.
  - apply convertAll_returned in E. destruct E as [converted [-> HF]]. cbn [app].
    split.
    + intros Hin. destruct (Forall2_in_r _ _ _ _ HF Hin) as [post [Hpost Hconv]].
      apply filter_In in Hpost. destruct Hpost as [Hpost Hinc].
      exists fetched, post. repeat split; try assumption.
      apply Hok. now eexists.
    + intros [f [post [[= <-] [_ [Hpost [Hinc Hconv]]]]]].
      assert (Hfil : In post (filter (shouldIncludePost config) fetched))
        by (apply filter_In; now split).
      destruct (Forall2_in_l _ _ _ _ HF Hfil) as [meme' [Hin' Hconv']].
      congruence.
  - split; [contradiction |].
    intros [f [post [[= <-] [Hall _]]]]. apply Hok in Hall.
    destruct Hall as [memes H]. discriminate.
Qed.

Lemma fetchMemes_In (posts : list MemePost) (console : list LogLine) (meme : MemePost) :
  fetchMemes getHot config = (Returned posts, console) ->
  (In meme posts <->
   exists s, In s (subreddits config) /\ In meme (contribution getHot config s)).
Proof.
  rewrite fetchMemes_eq. intros [= <- _]. rewrite <- in_flat_map.
  split; apply Permutation_in; [apply sort_perm | apply Permutation_sym, sort_perm].
Qed.

(** The filter is the test for visual content together with the thresholds,
    which can be read on the converted post as well. *)
Lemma shouldIncludePost_passes (post : RawPost) (subredditName : string)
  (meme : MemePost) :
  convertToMemePost post subredditName = Returned meme ->
  shouldIncludePost config post = (isMemePost post && passes config meme)%bool.
Proof.
  unfold convertToMemePost. destruct (author post); [| discriminate].
  intros [= <-]. unfold shouldIncludePost, passes.
  cbn [isNSFW engagement upvotes comments].
  rewrite (Z.leb_antisym (score post)), (Z.leb_antisym (num_comments post)).
  destruct (isMemePost post); [| reflexivity].
  destruct (over_18 post && negb (includeNSFW config))%bool; [reflexivity |].
  destruct (score post <? minUpvotes config)%Z; [reflexivity |].
  now destruct (num_comments post <? minComments config)%Z.
Qed.

End ReturnedPosts.

Section ReturnedPostsProperties.
Import Js Utils Spec Aux Scraper.

(** Every post that fetchMemes returns satisfies the configuration it was
    fetched under: it comes from a configured source, has visual content
    (its category is never link), has at least the minimum of upvotes and of
    comments, and is adult-flagged only when the configuration includes
    adult content. *)
Theorem fetchMemes_within_thresholds :
  forall (getHot : string -> Z -> Outcome (list RawPost)) config posts console meme,
    fetchMemes getHot config = (Returned posts, console) ->
    In meme posts ->
    In (subreddit meme) (subreddits config) /\
    postType meme <> Link /\
    (minUpvotes config <= upvotes (engagement meme))%Z /\
    (minComments config <= comments (engagement meme))%Z /\
    (isNSFW meme = true -> includeNSFW config = true).
Proof.
  intros getHot config posts console meme Hfetch Hin.
  apply (fetchMemes_In _ _ _ _ _ Hfetch) in Hin. destruct Hin as [s [Hs Hin]].
  apply contribution_origin in Hin.
  destruct Hin as [fetched [post [_ [_ [_ [Hinc Hconv]]]]]].
  rewrite (shouldIncludePost_passes config _ _ _ Hconv) in Hinc.
  apply andb_true_iff in Hinc. destruct Hinc as [Hmeme Hpass].
  unfold passes in Hpass. rewrite !andb_true_iff, negb_true_iff in Hpass.
  destruct Hpass as [[Hnsfw Hup] Hcom].
  apply Z.leb_le in Hup, Hcom.
  unfold convertToMemePost in Hconv. destruct (author post); [| discriminate].
  injection Hconv as <-. cbn in *. repeat split; try assumption.
  - unfold isMemePost in Hmeme. destruct (determinePostType post); discriminate.
  - intros Hadult. rewrite Hadult in Hnsfw. cbn in Hnsfw.
    now apply negb_false_iff in Hnsfw.
Qed.

Lemma fetchMemes_within_thresholds_witness :
  exists posts console meme,
    fetchMemes Examples.stocksDown Examples.stocksFirst = (Returned posts, console) /\
    In meme posts /\
    (100 <= upvotes (engagement meme))%Z /\ postType meme <> Link.
Proof.
  eexists. eexists. eexists. split; [reflexivity |].
  split; [simpl; left; reflexivity |].
  refine (let H := fetchMemes_within_thresholds Examples.stocksDown Examples.stocksFirst
                     _ _ _ eq_refl _ in
          conj (proj1 (proj2 (proj2 H))) (proj1 (proj2 H))).
  simpl. left. reflexivity.
Defined.

(** A post is in the result of fetchMemes exactly when it is the conversion
    of an accepted post that a configured source delivered, and no accepted
    post of that delivery lacks an author (which would give up the whole
    delivery). *)
Theorem fetchMemes_membership :
  forall (getHot : string -> Z -> Outcome (list RawPost)) config posts console meme,
    fetchMemes getHot config = (Returned posts, console) ->
    (In meme posts <->
     exists s fetched post,
       In s (subreddits config) /\
       getHot s (limit config) = Returned fetched /\
       (forall p, In p fetched -> shouldIncludePost config p = true ->
                  author p <> None) /\
       In post fetched /\ shouldIncludePost config post = true /\
       convertToMemePost post s = Returned meme).
Proof.
  intros getHot config posts console meme Hfetch.
  rewrite (fetchMemes_In _ _ _ _ _ Hfetch). split.
  - intros [s [Hs Hin]]. apply contribution_origin in Hin.
    destruct Hin as [fetched [post H]]. now exists s, fetched, post.
  - intros [s [fetched [post [Hs H]]]]. exists s. split; [assumption |].
    apply contribution_origin. now exists fetched, post.
Qed.

Lemma fetchMemes_membership_witness :
  exists posts console meme,
    fetchMemes Examples.stocksDown Examples.stocksFirst = (Returned posts, console) /\
    meme_title meme = "Theta gang" /\ In meme posts.
Proof.
  eexists. eexists. eexists. split; [reflexivity |]. split; cycle 1.
  - apply (proj2 (fetchMemes_membership Examples.stocksDown Examples.stocksFirst
                    _ _ _ eq_refl)).
    exists "wallstreetbets", Examples.threePosts,
      (Examples.withTitle "Theta gang" (Examples.withScore 900 Examples.imagePost)).
    split; [right; now left |]. split; [reflexivity |]. split.
    + intros p Hp _.
      destruct Hp as [<- | [<- | [<- | []]]]; discriminate.
    + split; [right; right; now left |]. split; reflexivity.
  - reflexivity.
Defined.

Lemma fetched_tickers_are_tokens
  (getHot : string -> Z -> Outcome (list RawPost)) (config : ScraperConfig)
  (meme : MemePost) (t : string) :
  In meme (sort byUpvotes (flat_map (contribution getHot config) (subreddits config))) ->
  In t (tickers meme) -> isToken t.
Proof.
  intros Hin Ht.
  apply (fetchMemes_In getHot config _ _ meme (fetchMemes_eq getHot config)) in Hin.
  destruct Hin as [s [_ Hin]]. apply contribution_origin in Hin.
  destruct Hin as [fetched [post [_ [_ [_ [_ Hconv]]]]]].
  unfold convertToMemePost in Hconv. destruct (author post); [| discriminate].
  injection Hconv as <-. cbn [tickers] in Ht.
  exact (extractTickers_tokens _ _ Ht).
Qed.

(** The tickers of the posts that fetchMemes returns are tokens: one to
    five uppercase Latin letters each. *)
Theorem fetchMemes_tickers_are_tokens :
  forall (getHot : string -> Z -> Outcome (list RawPost)) config posts console meme t,
    fetchMemes getHot config = (Returned posts, console) ->
    In meme posts -> In t (tickers meme) -> isToken t.
Proof.
  intros getHot config posts console meme t Hfetch Hin Ht.
  rewrite fetchMemes_eq in Hfetch. injection Hfetch as <- _.
  exact (fetched_tickers_are_tokens getHot config meme t Hin Ht).
Qed.

Lemma fetchMemes_tickers_are_tokens_witness :
  exists posts console meme,
    fetchMemes Examples.stocksDown Examples.stocksFirst = (Returned posts, console) /\
    In meme posts /\ In "TSLA" (tickers meme) /\ isToken "TSLA".
Proof.
  eexists. eexists. eexists. split; [reflexivity |].
  split; [simpl; left; reflexivity |]. split; [simpl; right; now left |].
  refine (fetchMemes_tickers_are_tokens Examples.stocksDown Examples.stocksFirst
            _ _ _ "TSLA" eq_refl _ _).
  - simpl. left. reflexivity.
  - simpl. right. now left.
Defined.




End ReturnedPostsProperties.

(* ================================================================= *)
(** ** The queries by ticker *)

Section Queries.
Import Js Utils Spec Aux Scraper.

Lemma getMemesByTicker_eq (toUpperCase : string -> string)
  (getHot : string -> Z -> Outcome (list RawPost)) (config : ScraperConfig)
  (ticker : string) :
  getMemesByTicker toUpperCase getHot config ticker
  = (Returned
       (filter (mentionsTicker (toUpperCase ticker))
               (sort byUpvotes
                     (flat_map (contribution getHot config) (subreddits config)))),
     flat_map (report getHot config) (subreddits config)).
Proof. unfold getMemesByTicker. now rewrite fetchMemes_eq. Qed.

Lemma mentionsTicker_iff (t : string) (meme : MemePost) :
  mentionsTicker t meme = true <-> In t (tickers meme).
Proof.
  unfold mentionsTicker. rewrite existsb_exists. split.
  - intros [x [Hx Heq]]. apply String.eqb_eq in Heq. now subst.
  - intros H. exists t. split; [assumption | apply String.eqb_refl].
Qed.

Lemma StronglySorted_filter {A : Type} (R : A -> A -> Prop) (f : A -> bool)
  (l : list A) :
  StronglySorted R l -> StronglySorted R (filter f l).
Proof.
  induction 1 as [|a l Hl IH Ha]; [constructor |].
  cbn [filter]. destruct (f a); [| exact IH].
  constructor; [exact IH |]. rewrite Forall_forall in *.
  intros x Hx. apply filter_In in Hx. now apply Ha.
Qed.

Lemma fetched_NoDup (getHot : string -> Z -> Outcome (list RawPost))
  (config : ScraperConfig) :
  Forall (fun meme => NoDup (tickers meme))
         (sort byUpvotes (flat_map (contribution getHot config) (subreddits config))).
Proof.
  apply (Permutation_Forall
           (x := flat_map (contribution getHot config) (subreddits config))).
  - apply Permutation_sym, sort_perm.
  - induction (subreddits config) as [|s names IH]; [constructor |].
    cbn [flat_map]. apply Forall_app. split; [apply contribution_NoDup | exact IH].
Qed.

(** getMemesByTicker returns those posts of fetchMemes whose tickers
    include the upper-cased query, in the order fetchMemes gives them, so
    still sorted by upvotes; a query that is not a token in upper case finds
    nothing. *)
Theorem getMemesByTicker_selects :
  forall (toUpperCase : string -> string)
         (getHot : string -> Z -> Outcome (list RawPost)) config ticker,
  exists matching posts console,
    getMemesByTicker toUpperCase getHot config ticker = (Returned matching, console) /\
    fetchMemes getHot config = (Returned posts, console) /\
    (forall meme,
        In meme matching <->
        In meme posts /\ In (toUpperCase ticker) (tickers meme)) /\
    (forall a b, before a b matching -> before a b posts) /\
    StronglySorted (fun a b => (upvotes (engagement b) <= upvotes (engagement a))%Z)
                   matching /\
    (~ isToken (toUpperCase ticker) -> matching = []).
Proof.
  intros toUpperCase getHot config ticker. eexists. eexists. eexists.
  split; [apply getMemesByTicker_eq |]. split; [apply fetchMemes_eq |].
  set (posts := sort byUpvotes _).
  assert (Hin : forall meme,
             In meme (filter (mentionsTicker (toUpperCase ticker)) posts) <->
             In meme posts /\ In (toUpperCase ticker) (tickers meme)).
  { intros meme. now rewrite filter_In, mentionsTicker_iff. }
  split; [exact Hin |]. split; [intros a b; apply before_filter |]. split.
  - apply StronglySorted_filter.
    exact (sort_descending upvotesOf byUpvotes byUpvotes_key _).
  - intros Hno.
    destruct (filter (mentionsTicker (toUpperCase ticker)) posts) as [|meme rest] eqn:E;
      [reflexivity |].
    exfalso. apply Hno.
    destruct (proj1 (Hin meme)) as [Hposts Ht]; [now left |].
    exact (fetched_tickers_are_tokens getHot config meme _ Hposts Ht).
Qed.

End Queries.

Section QueriesAndCounts.
Import Js Utils Spec Aux Scraper.

Lemma upperChar_lowerChar (c : ascii) : upperChar (lowerChar c) = upperChar c.
Proof. destruct c as [[] [] [] [] [] [] [] []]; reflexivity. Qed.

Lemma upperAscii_toLowerCase (s : string) : upperAscii (toLowerCase s) = upperAscii s.
Proof.
  induction s as [|c s IH]; [reflexivity |].
  cbn [toLowerCase upperAscii]. now rewrite upperChar_lowerChar, IH.
Qed.

(** The query is read without regard to case: two ASCII queries that differ
    only in the case of their letters give the same posts.  What is needed
    of toUpperCase is its effect on ASCII strings. *)
Theorem getMemesByTicker_ignores_case :
  forall (toUpperCase : string -> string),
    (forall s, asciiOnly s -> toUpperCase s = upperAscii s) ->
    forall (getHot : string -> Z -> Outcome (list RawPost)) config t1 t2,
      asciiOnly t1 -> asciiOnly t2 -> equalIgnoringCase t1 t2 ->
      getMemesByTicker toUpperCase getHot config t1
      = getMemesByTicker toUpperCase getHot config t2.
Proof.
  intros toUpperCase Hascii getHot config t1 t2 H1 H2 Heq.
  rewrite !getMemesByTicker_eq, (Hascii t1 H1), (Hascii t2 H2).
  rewrite <- (upperAscii_toLowerCase t1), <- (upperAscii_toLowerCase t2).
  unfold equalIgnoringCase in Heq. now rewrite Heq.
Qed.

Lemma getMemesByTicker_ignores_case_witness :
  getMemesByTicker upperAscii Examples.stocksDown Examples.stocksFirst "spy"
  = getMemesByTicker upperAscii Examples.stocksDown Examples.stocksFirst "SPY" /\
  exists first second console,
    getMemesByTicker upperAscii Examples.stocksDown Examples.stocksFirst "spy"
    = (Returned [first; second], console).
Proof.
  split.
  - apply (getMemesByTicker_ignores_case upperAscii (fun s _ => eq_refl)).
    + simpl. repeat split; reflexivity.
    + simpl. repeat split; reflexivity.
    + reflexivity.
  - eexists. eexists. eexists. reflexivity.
Defined.

Lemma countOf_sortedTickers (posts : list MemePost) (t : string) :
  countOf (sortedTickers posts) t
  = Z.of_nat (count_occ string_dec (flat_map tickers posts) t).
Proof.
  rewrite sortedTickers_eq.
  pose proof (sort_perm byCount (tickerCounts posts)) as Hperm.
  assert (Hnd : NoDup (map fst (sort byCount (tickerCounts posts)))).
  { apply (Permutation_NoDup (l := map fst (tickerCounts posts))).
    - now apply Permutation_map, Permutation_sym.
    - apply tickerCounts_NoDup. }
  unfold countOf.
  destruct (mapGet (sort byCount (tickerCounts posts)) t) as [n|] eqn:E.
  - apply (mapGet_In _ _ _ Hnd) in E. apply (Permutation_in _ Hperm) in E.
    apply tickerCounts_In in E. now destruct E as [_ ->].
  - apply mapGet_None in E.
    destruct (in_dec string_dec t (flat_map tickers posts)) as [Hin | Hout].
    + exfalso. apply E.
      assert (Hpair : In (t, Z.of_nat (count_occ string_dec (flat_map tickers posts) t))
                         (tickerCounts posts))
        by (apply tickerCounts_In; now split).
      apply (Permutation_in _ (Permutation_sym Hperm)) in Hpair.
      now apply (in_map fst) in Hpair.
    + now rewrite (proj1 (count_occ_not_In string_dec _ t) Hout).
Qed.

(** The two queries agree: when the fetch service answers both in the same
    way, the frequency that getTrendingTickers reports for a ticker (0 when
    the table does not have it) is the number of posts that
    getMemesByTicker returns for it. *)
Theorem getMemesByTicker_matches_trending :
  forall (toUpperCase : string -> string)
         (getHot : string -> Z -> Outcome (list RawPost)) config ticker,
  exists matching table console,
    getMemesByTicker toUpperCase getHot config ticker = (Returned matching, console) /\
    getTrendingTickers getHot config = (Returned table, console) /\
    countOf table (toUpperCase ticker) = Z.of_nat (List.length matching).
Proof.
  intros toUpperCase getHot config ticker. eexists. eexists. eexists.
  split; [apply getMemesByTicker_eq |]. split.
  - unfold getTrendingTickers. rewrite fetchMemes_eq. reflexivity.
  - rewrite countOf_sortedTickers. f_equal.
    apply count_occ_posts, fetched_NoDup.
Qed.

Lemma totalCount_perm (l l' : list (string * Z)) :
  Permutation l l' -> totalCount l = totalCount l'.
Proof.
  unfold totalCount. induction 1; cbn [map fold_right]; lia.
Qed.

Lemma totalCount_mapSet (m : list (string * Z)) (k : string) (v : Z) :
  totalCount (mapSet m k v) = (totalCount m - countOf m k + v)%Z.
Proof.
  unfold totalCount, countOf. induction m as [|[k' v'] m IH].
  - cbn. lia.
  - cbn [mapSet mapGet]. destruct (String.eqb k k'); cbn [map fold_right snd].
    + lia.
    + rewrite IH. lia.
Qed.

Lemma totalCount_countTicker (l : list string) (acc : list (string * Z)) :
  totalCount (fold_left countTicker l acc)
  = (totalCount acc + Z.of_nat (List.length l))%Z.
Proof.
  revert acc; induction l as [|x l IH]; intros acc.
  - cbn [fold_left List.length]. lia.
  - cbn [fold_left List.length]. rewrite IH. unfold countTicker.
    rewrite totalCount_mapSet. unfold countOf. lia.
Qed.

(** The counts of the table add up to the number of tickers of all the
    posts, and every count is at least 1; with token sets free of
    duplicates no count exceeds the number of posts. *)
Theorem sortedTickers_total :
  (forall posts : list MemePost,
      totalCount (sortedTickers posts)
      = Z.of_nat (List.length (flat_map tickers posts))) /\
  (forall (posts : list MemePost) t n,
      In (t, n) (sortedTickers posts) -> (1 <= n)%Z) /\
  (forall (posts : list MemePost) t n,
      Forall (fun meme => NoDup (tickers meme)) posts ->
      In (t, n) (sortedTickers posts) -> (n <= Z.of_nat (List.length posts))%Z).
Proof.
  assert (Hin : forall posts t n,
             In (t, n) (sortedTickers posts) ->
             In t (flat_map tickers posts) /\
             n = Z.of_nat (count_occ string_dec (flat_map tickers posts) t)).
  { intros posts t n H. rewrite sortedTickers_eq in H.
    apply (Permutation_in _ (sort_perm byCount _)) in H.
    now apply tickerCounts_In. }
  split; [| split].
  - intros posts. rewrite sortedTickers_eq.
    rewrite (totalCount_perm _ _ (sort_perm byCount (tickerCounts posts))).
    rewrite tickerCounts_flat, totalCount_countTicker. reflexivity.
  - intros posts t n H. destruct (Hin _ _ _ H) as [Ht ->].
    apply (count_occ_In string_dec) in Ht. lia.
  - intros posts t n Hnd H. destruct (Hin _ _ _ H) as [_ ->].
    rewrite (count_occ_posts posts t Hnd).
    pose proof (filter_length_le (mentionsTicker t) posts). lia.
Qed.

Lemma sortedTickers_total_witness :
  let posts := [Examples.memeWith "first" ["SPY"; "TSLA"];
                Examples.memeWith "second" ["SPY"]] in
  In ("SPY", 2%Z) (sortedTickers posts) /\
  (2 <= Z.of_nat (List.length posts))%Z /\
  totalCount (sortedTickers posts) = 3%Z.
Proof.
  intros posts. destruct sortedTickers_total as [Htotal [_ Hmost]].
  assert (Hin : In ("SPY", 2%Z) (sortedTickers posts)) by (simpl; now left).
  split; [exact Hin |]. split.
  - apply (Hmost posts "SPY" 2%Z); [| exact Hin].
    repeat constructor; simpl; intuition discriminate.
  - now rewrite Htotal.
Defined.

End QueriesAndCounts.

(* ================================================================= *)
(** ** Raising the thresholds *)

Section Thresholds.
Import Js Utils Spec Aux Scraper.

Lemma filter_commute {A : Type} (f g : A -> bool) (l : list A) :
  filter f (filter g l) = filter g (filter f l).
Proof.
  induction l as [|x l IH]; [reflexivity |].
  cbn [filter]. destruct (f x) eqn:Ef, (g x) eqn:Eg; cbn [filter];
    rewrite ?Ef, ?Eg, IH; reflexivity.
Qed.

Lemma filter_flat_map {A B : Type} (f : B -> bool) (g : A -> list B) (l : list A) :
  filter f (flat_map g l) = flat_map (fun x => filter f (g x)) l.
Proof.
  induction l as [|x l IH]; [reflexivity |].
  cbn [flat_map]. now rewrite filter_app, IH.
Qed.

(** Sorting what a filter keeps is keeping, of what was sorted, what the
    filter keeps. *)
Lemma sort_commutes_filter {A : Type} (key : A -> Z) (comparefn : A -> A -> Z)
  (f : A -> bool) (l : list A) :
  (forall a b, comparefn a b = (key b - key a)%Z) ->
  sort comparefn (filter f l) = filter f (sort comparefn l).
Proof.
  intros Hkey. symmetry. apply (sort_unique key comparefn Hkey).
  - apply StronglySorted_filter. exact (sort_descending key comparefn Hkey l).
  - intros k. rewrite filter_commute, (sort_filter key comparefn Hkey).
    apply filter_commute.
Qed.

Lemma conversions_of (subredditName : string) (posts : list RawPost)
  (memes : list MemePost) :
  Forall2 (fun post meme => convertToMemePost post subredditName = Returned meme)
          posts memes ->
  memes = conversions subredditName posts.
Proof.
  unfold conversions. induction 1 as [|post meme posts memes Hconv _ IH];
    [reflexivity |].
  cbn [flat_map]. rewrite Hconv. cbn [app]. now rewrite <- IH.
Qed.

Lemma passes_stricter (first second : ScraperConfig) (meme : MemePost) :
  stricter first second -> passes second meme = true -> passes first meme = true.
Proof.
  intros [_ [_ [Hup [Hcom Hnsfw]]]]. unfold passes.
  rewrite !andb_true_iff, !negb_true_iff, !Z.leb_le.
  intros [[Ha Hu] Hc]. repeat split; try lia.
  destruct (isNSFW meme); [| reflexivity]. cbn in *.
  apply negb_false_iff in Ha. now rewrite (Hnsfw Ha).
Qed.

Lemma conversions_stricter (first second : ScraperConfig) (subredditName : string)
  (posts : list RawPost) :
  stricter first second ->
  filter (passes second)
         (conversions subredditName (filter (shouldIncludePost first) posts))
  = conversions subredditName (filter (shouldIncludePost second) posts).
Proof.
  intros Hs. unfold conversions. induction posts as [|post posts IH]; [reflexivity |].
  cbn [filter].
  destruct (convertToMemePost post subredditName) as [meme | error] eqn:Hconv.
  - rewrite (shouldIncludePost_passes first _ _ _ Hconv),
            (shouldIncludePost_passes second _ _ _ Hconv).
    pose proof (passes_stricter first second meme Hs) as Hp.
    destruct (isMemePost post); cbn [andb]; [| exact IH].
    destruct (passes second meme) eqn:E2.
    + rewrite (Hp eq_refl). cbn [flat_map]. rewrite Hconv. cbn [app filter].
      now rewrite E2, IH.
    + destruct (passes first meme); [| exact IH].
      cbn [flat_map]. rewrite Hconv. cbn [app filter]. now rewrite E2.
  - assert (Hskip : forall rest,
               flat_map (fun p => match convertToMemePost p subredditName with
                                  | Returned m => [m]
                                  | Thrown _ => []
                                  end) (post :: rest)
               = flat_map (fun p => match convertToMemePost p subredditName with
                                    | Returned m => [m]
                                    | Thrown _ => []
                                    end) rest).
    { intros rest. cbn [flat_map]. now rewrite Hconv. }
    destruct (shouldIncludePost first post), (shouldIncludePost second post);
      rewrite ?Hskip; exact IH.
Qed.

(** When every delivered post has an author, a source adds the conversions
    of its accepted posts. *)
Lemma contribution_conversions (getHot : string -> Z -> Outcome (list RawPost))
  (config : ScraperConfig) (s : string) (fetched : list RawPost) :
  getHot s (limit config) = Returned fetched ->
  (forall p, In p fetched -> author p <> None) ->
  contribution getHot config s
  = conversions s (filter (shouldIncludePost config) fetched).
Proof.
  intros Hget Hall. unfold contribution, fetchFromSubreddit. rewrite Hget. cbn [bind].
  destruct (proj2 (convertAll_succeeds config s fetched)) as [memes Hm].
  { intros p Hp _. now apply Hall. }
  rewrite Hm. apply convertAll_returned in Hm. destruct Hm as [converted [-> HF]].
  cbn [app]. now apply conversions_of.
Qed.

(** Raising the thresholds only removes posts.  A post accepted under the
    more demanding configuration is accepted under the other; and when
    every delivered post has an author, fetchMemes under the more demanding
    configuration returns the posts of the other run that pass the higher
    thresholds, in the same order. *)
Theorem fetchMemes_raising_thresholds :
  (forall first second post,
      stricter first second ->
      shouldIncludePost second post = true -> shouldIncludePost first post = true) /\
  (forall (getHot : string -> Z -> Outcome (list RawPost)) first second posts console,
      stricter first second ->
      (forall s fetched p,
          getHot s (limit first) = Returned fetched -> In p fetched ->
          author p <> None) ->
      fetchMemes getHot first = (Returned posts, console) ->
      fst (fetchMemes getHot second) = Returned (filter (passes second) posts)).
Proof.
  split.
  - intros first second post [_ [_ [Hup [Hcom Hnsfw]]]]. unfold shouldIncludePost.
    destruct (isMemePost post); cbn [negb]; [| discriminate].
    destruct (over_18 post); cbn [andb].
    + destruct (includeNSFW second); cbn [negb]; [| discriminate].
      rewrite (Hnsfw eq_refl). cbn [negb].
      destruct (Z.ltb_spec (score post) (minUpvotes second)); [discriminate |].
      destruct (Z.ltb_spec (num_comments post) (minComments second)); [discriminate |].
      intros _.
      destruct (Z.ltb_spec (score post) (minUpvotes first)); [lia |].
      destruct (Z.ltb_spec (num_comments post) (minComments first)); [lia | reflexivity].
    + destruct (Z.ltb_spec (score post) (minUpvotes second)); [discriminate |].
      destruct (Z.ltb_spec (num_comments post) (minComments second)); [discriminate |].
      intros _.
      destruct (Z.ltb_spec (score post) (minUpvotes first)); [lia |].
      destruct (Z.ltb_spec (num_comments post) (minComments first)); [lia | reflexivity].
  - intros getHot first second posts console Hs Hall Hfetch.
    rewrite fetchMemes_eq in Hfetch. injection Hfetch as <- _.
    rewrite fetchMemes_eq. cbn [fst]. f_equal.
    rewrite <- (sort_commutes_filter upvotesOf byUpvotes _ _ byUpvotes_key).
    f_equal. rewrite filter_flat_map.
    destruct Hs as [Hsubs [Hlimit Hrest]]. rewrite Hsubs.
    apply flat_map_ext. intros s.
    destruct (getHot s (limit first)) as [fetched | error] eqn:Hget.
    + rewrite (contribution_conversions getHot first s fetched Hget
                 (fun p => Hall s fetched p Hget)).
      rewrite (contribution_conversions getHot second s fetched).
      * symmetry. apply conversions_stricter. now repeat split.
      * now rewrite Hlimit.
      * exact (fun p => Hall s fetched p Hget).
    + unfold contribution, fetchFromSubreddit. now rewrite Hlimit, Hget.
Qed.

Lemma fetchMemes_raising_thresholds_witness :
  exists posts console first second,
    fetchMemes Examples.stocksDown Examples.stocksFirst = (Returned posts, console) /\
    fst (fetchMemes Examples.stocksDown Examples.stocksFirstStrict)
    = Returned [first; second] /\
    filter (passes Examples.stocksFirstStrict) posts = [first; second].
Proof.
  destruct fetchMemes_raising_thresholds as [_ Hraise].
  eexists. eexists. eexists. eexists. split; [reflexivity |].
  assert (H : fst (fetchMemes Examples.stocksDown Examples.stocksFirstStrict)
              = Returned (filter (passes Examples.stocksFirstStrict)
                                 (sort byUpvotes
                                       (flat_map (contribution Examples.stocksDown
                                                               Examples.stocksFirst)
                                                 (subreddits Examples.stocksFirst))))).
  { apply (Hraise Examples.stocksDown Examples.stocksFirst Examples.stocksFirstStrict
                  _ (flat_map (report Examples.stocksDown Examples.stocksFirst)
                              (subreddits Examples.stocksFirst))).
    - unfold stricter. simpl. repeat split; try reflexivity; lia.
    - intros s fetched p Hget Hin. unfold Examples.stocksDown in Hget.
      destruct (String.eqb s "stocks"); [discriminate |].
      injection Hget as <-.
      destruct Hin as [<- | [<- | [<- | []]]]; discriminate.
    - apply fetchMemes_eq. }
  split; [rewrite H |]; reflexivity.
Defined.

End Thresholds.

(* ================================================================= *)
(** ** Reading back a list of tickers *)

Section Mentions.
Import Js Utils Spec Aux Scraper.

Lemma matchAll_skip_all (s : string) (skip : nat) :
  String.length s <= skip -> matchAll skip s = [].
Proof.
  revert skip; induction s as [|c s IH]; intros skip Hlen; [reflexivity |].
  cbn [String.length] in Hlen. destruct skip as [|k]; [lia |].
  cbn [matchAll]. apply IH. lia.
Qed.

Lemma matchAll_single (t : string) :
  isToken t -> matchAll 0 (String "$" t) = [t].
Proof.
  intros Ht.
  assert (Hm : tickerRegex (String "$" t) = Some t).
  { apply tickerRegex_iff. split; [assumption |]. exists "", "".
    cbn [append]. now rewrite append_empty_r. }
  cbn [matchAll]. rewrite Hm. f_equal. now apply matchAll_skip_all.
Qed.

Lemma matchAll_mentionAll (ts : list string) :
  Forall isToken ts -> matchAll 0 (mentionAll ts) = ts.
Proof.
  induction 1 as [|t ts Ht _ IH]; [reflexivity |].
  cbn [mentionAll]. now rewrite matchAll_space, (matchAll_single t Ht), IH.
Qed.

Lemma fold_setAdd_distinct (l : list string) :
  NoDup l -> fold_left setAdd l [] = l.
Proof.
  induction l as [|x l IH] using rev_ind; intros Hnd; [reflexivity |].
  apply NoDup_remove in Hnd. rewrite app_nil_r in Hnd. destruct Hnd as [Hl Hx].
  rewrite fold_setAdd_snoc, (IH Hl). now apply setAdd_new.
Qed.

(** What is written can be read back: from a text that mentions tokens one
    after the other, each behind a dollar sign and followed by a space, the
    extractor reads these tokens in their order, each once; a list of
    distinct tokens comes back as it is. *)
Theorem extractTickers_reads_back :
  (forall ts, Forall isToken ts ->
              extractTickers (mentionAll ts) = fold_left setAdd ts []) /\
  (forall ts, Forall isToken ts -> NoDup ts ->
              extractTickers (mentionAll ts) = ts).
Proof.
  split.
  - intros ts Hts. unfold extractTickers. now rewrite matchAll_mentionAll.
  - intros ts Hts Hnd. unfold extractTickers.
    rewrite (matchAll_mentionAll ts Hts). now apply fold_setAdd_distinct.
Qed.

Lemma extractTickers_reads_back_witness :
  extractTickers "$TSLA $A $NVDA " = ["TSLA"; "A"; "NVDA"].
Proof.
  apply (proj2 extractTickers_reads_back ["TSLA"; "A"; "NVDA"]).
  - repeat constructor; simpl; lia.
  - repeat constructor; simpl; intuition discriminate.
Defined.

End Mentions.
